(** * ptghci: the client side of the GHCi engine bridge

    A shallow embedding of [pybits/ptghci/engine.py]: the stream
    listener thread ([StreamEchoThread]), the reply interpreter
    ([_response_from_reply]) and the command client ([Engine]) with its
    interrupt handling.

    Modelling conventions.
    - Decoded text is a [string]; the model covers the ASCII range, on
      which Python's [\d] is the class [0-9] and [int] reads base ten.
      Text outside that range, where [\d] has more digits, is not
      modelled; [Text.is_ascii] marks the messages a statement about
      the pattern speaks of.
    - [int] refuses a digit run longer than the interpreter's limit on
      integer string conversion, [Text.int_max_str_digits], and raises
      [ValueError].
    - JSON values are the type [json]; a decoded reply is a dictionary
      [gmap string json].  JSON numbers are the integers.
    - Python exceptions are values of [exn]; a call either returns,
      raises, or is still blocked when the observed behaviour of its
      environment ends.
    - The two threads and the engine are interleaved by a list of
      [event]s: what happens while the main thread sits in a blocking
      primitive ([poll], [wait_for]).  [KeyboardInterrupt] is delivered
      at these blocking points. *)

From Stdlib Require Import ZArith Ascii String List Bool Lia.
From stdpp Require Import base option strings gmap list.

Local Open Scope Z_scope.

(** ** Text *)

Module Text.

(** The class [\d] on ASCII text. *)
Definition is_digit (c : ascii) : bool :=
  ((48 <=? N_of_ascii c) && (N_of_ascii c <=? 57))%N.

Definition digit_value (c : ascii) : Z := Z.of_N (N_of_ascii c) - 48.

(** [int(s)] for a run of decimal digits, most significant first. *)
Fixpoint int_from (acc : Z) (s : string) : Z :=
  match s with
  | EmptyString => acc
  | String c s' => int_from (10 * acc + digit_value c) s'
  end.

Definition int (s : string) : Z := int_from 0 s.

(** CPython's default limit on the number of digits [int(s)] converts
    ([sys.get_int_max_str_digits()]); past it [int] raises
    [ValueError]. *)
Definition int_max_str_digits : nat := 4300.

(** [int(s)] converts the digit run [s] without raising. *)
Definition within_int_limit (s : string) : bool :=
  (String.length s <=? int_max_str_digits)%nat.

(** Every character is in the ASCII range. *)
Fixpoint is_ascii (s : string) : bool :=
  match s with
  | EmptyString => true
  | String c s' => (N_of_ascii c <? 128)%N && is_ascii s'
  end.

Fixpoint all_digits (s : string) : bool :=
  match s with
  | EmptyString => true
  | String c s' => is_digit c && all_digits s'
  end.

(** The slice [s[n:]]. *)
Fixpoint slice_from (n : nat) (s : string) : string :=
  match n, s with
  | O, _ => s
  | S n', String _ s' => slice_from n' s'
  | S _, EmptyString => EmptyString
  end.

End Text.

(** ** The fragment of regular expressions used by [SYNC_RE] *)

Module Re.

Inductive item :=
| Lit (c : ascii)      (* a literal character *)
| Digit                (* \d *)
| DigitsGroup.         (* (\d+), a capturing group *)

Definition regex := list item.

Fixpoint lits (s : string) : regex :=
  match s with
  | EmptyString => []
  | String c s' => Lit c :: lits s'
  end.

(** [\d+] is greedy: the longest run is tried first and the matcher
    backs off one character at a time.  [k] matches the rest of the
    pattern. *)
Fixpoint digits1 (k : string -> string -> option string)
         (s acc : string) : option string :=
  match s with
  | EmptyString => None
  | String a s' =>
      if Text.is_digit a then
        let acc' := String.append acc (String a EmptyString) in
        match digits1 k s' acc' with
        | Some g => Some g
        | None => k s' acc'
        end
      else None
  end.

(** [run r s g]: match [r] at the start of [s]; [g] is the text
    captured so far.  The result is the text of group 1. *)
Fixpoint run (r : regex) : string -> string -> option string :=
  match r with
  | [] => fun _ g => Some g
  | Lit c :: r' =>
      fun s g =>
        match s with
        | String a s' => if Ascii.eqb a c then run r' s' g else None
        | EmptyString => None
        end
  | Digit :: r' =>
      fun s g =>
        match s with
        | String a s' => if Text.is_digit a then run r' s' g else None
        | EmptyString => None
        end
  | DigitsGroup :: r' => fun s _ => digits1 (run r') s EmptyString
  end.

(** [r.match(s)]: anchored at the start of [s], not at its end;
    [Some g] is a match object whose [group(1)] is [g]. *)
Definition match_ (r : regex) (s : string) : option string :=
  run r s EmptyString.

End Re.

(** [SYNC_RE = re.compile(r'\d #~PTGHCI~SYNC~(\d+)~#')] *)
Definition SYNC_RE : Re.regex :=
  Re.Digit :: Re.lits " #~PTGHCI~SYNC~" ++ Re.DigitsGroup :: Re.lits "~#".

(** ** JSON values and Python exceptions *)

#[warnings="-register-all"] Inductive json :=
| JNull
| JBool (b : bool)
| JNum (n : Z)
| JStr (s : string)
| JArr (xs : list json)
| JObj (kvs : list (string * json)).

(** Python truthiness of a decoded JSON value. *)
Definition truthy (v : json) : bool :=
  match v with
  | JNull => false
  | JBool b => b
  | JNum n => negb (n =? 0)
  | JStr s => negb (String.eqb s EmptyString)
  | JArr xs => match xs with [] => false | _ => true end
  | JObj kvs => match kvs with [] => false | _ => true end
  end.

Inductive value_error :=
| BadStreamIdentifier (stream : ascii)
| ExceedsIntMaxStrDigits (digits : nat)
| UnexpectedResponseType (tag : json).

Inductive exn :=
| KeyError (key : string)
| IndexError
| TypeError
| ValueError (what : value_error)
| KeyboardInterrupt.

(** ** The stream listener: [StreamEchoThread] *)

Inductive file := stdout | stderr.

(** What the listener does to the rest of the program, in order:
    [pt_print(contents, file=...)] and [sync_condition.notify_all()]. *)
Inductive effect :=
| PtPrint (contents : string) (f : file)
| NotifyAll.

Record StreamEchoThread := mkStreamEchoThread {
  last_sync_seq : Z;
  interrupted : bool;
  effects : list effect;       (* the effects performed so far *)
  died : option exn            (* the exception that ended [run], if any *)
}.

(** [StreamEchoThread.__init__] *)
Definition StreamEchoThread_init : StreamEchoThread :=
  {| last_sync_seq := -1; interrupted := false; effects := []; died := None |}.

Definition perform (e : effect) (self : StreamEchoThread) : StreamEchoThread :=
  {| last_sync_seq := last_sync_seq self; interrupted := interrupted self;
     effects := effects self ++ [e]; died := died self |}.

(** One turn of the [while True] loop of [StreamEchoThread.run], on the
    decoded [message] just received. *)
Definition run_body (self : StreamEchoThread) (message : string)
  : exn + StreamEchoThread :=
  match Re.match_ SYNC_RE message with
  | Some g =>
      (* [int(m.group(1))] comes first and may raise *)
      if Text.within_int_limit g then
        inr {| last_sync_seq := Text.int g;
               interrupted := false;
               effects := effects self ++ [NotifyAll];
               died := died self |}
      else inl (ValueError (ExceedsIntMaxStrDigits (String.length g)))
  | None =>
      if interrupted self then inr self
      else
        match message with
        | EmptyString => inl IndexError
        | String stream _ =>
            let contents := Text.slice_from 2 message in
            if Ascii.eqb stream "1" then inr (perform (PtPrint contents stdout) self)
            else if Ascii.eqb stream "2" then inr (perform (PtPrint contents stderr) self)
            else inl (ValueError (BadStreamIdentifier stream))
        end
  end.

(** [StreamEchoThread.run] on the messages the socket delivers, until
    they are used up or a turn raises. *)
Fixpoint run (self : StreamEchoThread) (messages : list string)
  : exn + StreamEchoThread :=
  match messages with
  | [] => inr self
  | message :: rest =>
      match run_body self message with
      | inr self' => run self' rest
      | inl e => inl e
      end
  end.

(** [StreamEchoThread.interrupt] *)
Definition interrupt (self : StreamEchoThread) : StreamEchoThread :=
  {| last_sync_seq := last_sync_seq self; interrupted := true;
     effects := effects self; died := died self |}.

(** The thread as the rest of the program sees it: a message reaching a
    live thread runs one turn of the loop; an uncaught exception ends
    the thread and later messages are not read. *)
Definition deliver (message : string) (self : StreamEchoThread) : StreamEchoThread :=
  match died self with
  | Some _ => self
  | None =>
      match run_body self message with
      | inr self' => self'
      | inl e =>
          {| last_sync_seq := last_sync_seq self; interrupted := interrupted self;
             effects := effects self; died := Some e |}
      end
  end.

(** The cursor after each of a series of messages. *)
Fixpoint cursor_progression (self : StreamEchoThread) (messages : list string)
  : list Z :=
  match messages with
  | [] => []
  | message :: rest =>
      let self' := deliver message self in
      last_sync_seq self' :: cursor_progression self' rest
  end.

(** A marker as the engine writes it: stream digit, blank, the tagged
    sequence number. *)
Definition marker (g : string) : string :=
  String.append "1 #~PTGHCI~SYNC~" (String.append g "~#").

(** ** Replies and responses *)

(** Modelled from the spec: the class [Response] of [ptghci/response.py],
    which is not part of the sources at hand.  The spec gives its three
    variants: [Response.from_value(content)],
    [Response.from_error_message(text)] and [Response(Response.Stream)]. *)
Inductive Response :=
| Value (content : json)
| ErrorMessage (content : json)
| Stream.

(** [reply[key]] on a decoded reply. *)
Definition getitem (reply : gmap string json) (key : string) : exn + json :=
  match reply !! key with
  | Some v => inr v
  | None => inl (KeyError key)
  end.

(** [v == 'literal'] for a decoded JSON value [v]. *)
Definition eq_str (v : json) (literal : string) : bool :=
  match v with
  | JStr s => String.eqb s literal
  | _ => false
  end.

Definition _response_from_reply (reply : gmap string json) : exn + Response :=
  match getitem reply "tag" with
  | inl e => inl e
  | inr tag =>
      if eq_str tag "ExecCaptureResponse" then
        match getitem reply "success" with
        | inl e => inl e
        | inr success =>
            match getitem reply "content" with
            | inl e => inl e
            | inr content =>
                if truthy success then inr (Value content)
                else inr (ErrorMessage content)
            end
        end
      else if eq_str tag "ExecStreamResponse" then
        match getitem reply "success" with
        | inl e => inl e
        | inr success =>
            if truthy success then inr Stream
            else
              match getitem reply "content" with
              | inl e => inl e
              | inr content => inr (ErrorMessage content)
              end
        end
      else inl (ValueError (UnexpectedResponseType tag))
  end.

(** ** The command client: [Engine] *)

(** What the environment does while the main thread is inside a blocking
    primitive.  An event the primitive does not wait for lets time pass,
    as [Timeout] does. *)
Inductive event :=
| Writable                               (* [comm_socket] takes a message *)
| Reply (reply : gmap string json)       (* a reply is there; [recv] returns it *)
| Timeout                                (* the poll or wait times out *)
| StreamMessage (message : string)       (* the listener receives a message *)
| Cancel.                                (* [KeyboardInterrupt] in the main thread *)

Record Engine := mkEngine {
  iopub_thread : StreamEchoThread;
  comm_sent : list (gmap string json);   (* requests sent on [comm_socket] *)
  ctrl_sent : list string;               (* messages sent on [ctrl_socket] *)
  printed : list string                  (* lines printed by the main thread *)
}.

(** [Engine.__init__]: the sockets are connected and the listener runs. *)
Definition Engine_init : Engine :=
  {| iopub_thread := StreamEchoThread_init;
     comm_sent := []; ctrl_sent := []; printed := [] |}.

Definition with_thread (th : StreamEchoThread) (self : Engine) : Engine :=
  {| iopub_thread := th; comm_sent := comm_sent self;
     ctrl_sent := ctrl_sent self; printed := printed self |}.

Definition listen (message : string) (self : Engine) : Engine :=
  with_thread (deliver message (iopub_thread self)) self.

Definition comm_send (msg : gmap string json) (self : Engine) : Engine :=
  {| iopub_thread := iopub_thread self; comm_sent := comm_sent self ++ [msg];
     ctrl_sent := ctrl_sent self; printed := printed self |}.

Definition print (line : string) (self : Engine) : Engine :=
  {| iopub_thread := iopub_thread self; comm_sent := comm_sent self;
     ctrl_sent := ctrl_sent self; printed := printed self ++ [line] |}.

(** [Engine.send_interrupt] *)
Definition send_interrupt (self : Engine) : Engine :=
  {| iopub_thread := interrupt (iopub_thread self);
     comm_sent := comm_sent self;
     ctrl_sent := ctrl_sent self ++ ["Interrupt"%string];
     printed := printed self |}.

(** How a call ends: it returns, it raises, or it is still blocked when
    the events run out. *)
Inductive outcome (A : Type) :=
| Returned (a : A)
| Raised (e : exn)
| Blocked.
Arguments Returned {A} a.
Arguments Raised {A} e.
Arguments Blocked {A}.

(** A method of [Engine]: it consumes events and updates the engine. *)
Definition call (A : Type) : Type :=
  list event -> Engine -> outcome A * list event * Engine.

Definition ret {A} (a : A) : call A := fun tr self => (Returned a, tr, self).
Definition raise {A} (e : exn) : call A := fun tr self => (Raised e, tr, self).

Definition bind {A B} (c : call A) (k : A -> call B) : call B :=
  fun tr self =>
    match c tr self with
    | (Returned a, tr', self') => k a tr' self'
    | (Raised e, tr', self') => (Raised e, tr', self')
    | (Blocked, tr', self') => (Blocked, tr', self')
    end.

Definition lift {A} (r : exn + A) : call A :=
  match r with
  | inr a => ret a
  | inl e => raise e
  end.

Definition modify (f : Engine -> Engine) : call unit :=
  fun tr self => (Returned tt, tr, f self).

(** [try: body  except KeyboardInterrupt: handler] *)
Definition try_except_KeyboardInterrupt {A} (body handler : call A) : call A :=
  fun tr self =>
    match body tr self with
    | (Raised KeyboardInterrupt, tr', self') => handler tr' self'
    | other => other
    end.

#[global] Instance call_ret : MRet call := @ret.
#[global] Instance call_bind : MBind call := fun A B k c => bind c k.

(** [Engine._await_send]: poll until [comm_socket] is writable, then
    send. *)
Fixpoint _await_send (msg : gmap string json) (tr : list event) (self : Engine)
  : outcome unit * list event * Engine :=
  match tr with
  | [] => (Blocked, [], self)
  | Writable :: tr' => (Returned tt, tr', comm_send msg self)
  | Cancel :: tr' => (Raised KeyboardInterrupt, tr', self)
  | StreamMessage m :: tr' => _await_send msg tr' (listen m self)
  | _ :: tr' => _await_send msg tr' self
  end.

(** The inner loop of [Engine._await_reply]: after an interrupt, wait
    for the confirmation response, then [raise interrupt]. *)
Fixpoint await_confirmation {A} (tr : list event) (self : Engine)
  : outcome A * list event * Engine :=
  match tr with
  | [] => (Blocked, [], self)
  | Reply _ :: tr' => (Raised KeyboardInterrupt, tr', self)
  | Cancel :: tr' =>
      await_confirmation tr' (send_interrupt (print "Re-sending interrupt" self))
  | StreamMessage m :: tr' => await_confirmation tr' (listen m self)
  | _ :: tr' => await_confirmation tr' self
  end.

(** [Engine._await_reply] *)
Fixpoint _await_reply (tr : list event) (self : Engine)
  : outcome (gmap string json) * list event * Engine :=
  match tr with
  | [] => (Blocked, [], self)
  | Reply reply :: tr' => (Returned reply, tr', self)
  | Cancel :: tr' => await_confirmation tr' (send_interrupt self)
  | StreamMessage m :: tr' => _await_reply tr' (listen m self)
  | _ :: tr' => _await_reply tr' self
  end.

(** [a >= v] for an integer [a] and a decoded JSON value [v]. *)
Definition ge_json (a : Z) (v : json) : exn + bool :=
  match v with
  | JNum n => inr (n <=? a)
  | JBool b => inr (Z.b2z b <=? a)
  | _ => inl TypeError
  end.

(** [StreamEchoThread.await_sync], called from the main thread: wait
    until [last_sync_seq >= sync_seq], looking again after every
    notification or timeout. *)
Fixpoint await_sync (sync_seq : json) (tr : list event) (self : Engine)
  : outcome unit * list event * Engine :=
  match ge_json (last_sync_seq (iopub_thread self)) sync_seq with
  | inl e => (Raised e, tr, self)
  | inr true => (Returned tt, tr, self)
  | inr false =>
      match tr with
      | [] => (Blocked, [], self)
      | Cancel :: tr' => (Raised KeyboardInterrupt, tr', self)
      | StreamMessage m :: tr' => await_sync sync_seq tr' (listen m self)
      | _ :: tr' => await_sync sync_seq tr' self
      end
  end.

Definition request (tag : string) (fields : list (string * json))
  : gmap string json :=
  <["tag"%string := JStr tag]> (list_to_map fields).

(** [Engine.execute] *)
Definition execute (code : string) : call Response :=
  _await_send (request "RequestExecCapture" [("content"%string, JStr code)]) ;;
  try_except_KeyboardInterrupt
    (reply ← _await_reply : call _; lift (_response_from_reply reply))
    (modify send_interrupt ;; raise KeyboardInterrupt).

(** [Engine.exec_stream] *)
Definition exec_stream (code : string) : call Response :=
  _await_send (request "RequestExecStream" [("content"%string, JStr code)]) ;;
  message ← _await_reply : call _;
  success ← lift (getitem message "success");
  (if truthy success then
     try_except_KeyboardInterrupt
       (syncVal ← lift (getitem message "syncVal"); await_sync syncVal)
       (modify send_interrupt)
   else ret tt) ;;
  lift (_response_from_reply message).

(** [Engine.get_completions]; [None] is Python's [None]. *)
Definition get_completions (line_before_cursor : string)
  : call (option (json * json)) :=
  _await_send (request "RequestCompletion"
                 [("lineBeforeCursor"%string, JStr line_before_cursor)]) ;;
  reply ← _await_reply : call _;
  if match reply !! "success" with Some v => truthy v | None => false end
  then
    startChars ← lift (getitem reply "startChars");
    candidates ← lift (getitem reply "candidates");
    ret (Some (startChars, candidates))
  else ret None.

(** ** Notions used in the statements *)

(** The messages [SYNC_RE] matches, in words: a digit, a blank, the
    text [#~PTGHCI~SYNC~], a non-empty run of digits [g], the text
    [~#], and then anything. *)
Definition marker_shape (message g : string) : Prop :=
  exists d rest,
    Text.is_digit d = true /\ g <> EmptyString /\ Text.all_digits g = true
    /\ message = String d (" #~PTGHCI~SYNC~" +:+ g +:+ "~#" +:+ rest).

(** The pattern as the specification words it, [<digit> #~SYNC~<n>~#]. *)
Definition spec_marker_shape (message g : string) : Prop :=
  exists d,
    Text.is_digit d = true /\ g <> EmptyString /\ Text.all_digits g = true
    /\ message = String d (" #~SYNC~" +:+ g +:+ "~#").

(** The sink a content line goes to and the text that is printed. *)
Definition routed (message : string) : option effect :=
  match message with
  | String "1" _ => Some (PtPrint (Text.slice_from 2 message) stdout)
  | String "2" _ => Some (PtPrint (Text.slice_from 2 message) stderr)
  | _ => None
  end.

Definition with_effects (es : list effect) (self : StreamEchoThread)
  : StreamEchoThread :=
  {| last_sync_seq := last_sync_seq self; interrupted := interrupted self;
     effects := es; died := died self |}.

(** What an event does behind the back of a waiting main thread: a
    stream message is handled by the listener, nothing else changes the
    engine. *)
Definition background (e : event) (self : Engine) : Engine :=
  match e with
  | StreamMessage m => listen m self
  | _ => self
  end.

Definition absorb (tr : list event) (self : Engine) : Engine :=
  fold_left (fun s e => background e s) tr self.

Definition is_reply (e : event) : bool :=
  match e with Reply _ => true | _ => false end.
Definition is_cancel (e : event) : bool :=
  match e with Cancel => true | _ => false end.
Definition is_writable (e : event) : bool :=
  match e with Writable => true | _ => false end.

(** Events that leave [_await_send], respectively [_await_reply],
    waiting. *)
Definition send_waits (e : event) : bool := negb (is_writable e || is_cancel e).
Definition reply_waits (e : event) : bool := negb (is_reply e || is_cancel e).

(** The engine after the events [tr] have passed in the inner loop of
    [_await_reply]: every further cancellation prints a line and sends
    the interrupt again. *)
Definition confirming (tr : list event) (self : Engine) : Engine :=
  fold_left
    (fun s e =>
       match e with
       | Cancel => send_interrupt (print "Re-sending interrupt" s)
       | _ => background e s
       end) tr self.

Definition cursor (self : Engine) : Z := last_sync_seq (iopub_thread self).

Fixpoint count_cancel (tr : list event) : nat :=
  match tr with
  | [] => 0
  | Cancel :: tr' => S (count_cancel tr')
  | _ :: tr' => count_cancel tr'
  end.

Definition not_cancel (e : event) : bool := negb (is_cancel e).

(** The cursor stays below [k] while the events [waited] pass. *)
Fixpoint stays_below (k : Z) (waited : list event) (self : Engine) : bool :=
  (cursor self <? k)
  && match waited with
     | [] => true
     | e :: waited' => stays_below k waited' (background e self)
     end.

Definition of_result {A} (r : exn + A) : outcome A :=
  match r with
  | inr a => Returned a
  | inl e => Raised e
  end.

Definition ack_reply : gmap string json :=
  request "ExecCaptureResponse"
    [("success"%string, JBool false); ("content"%string, JStr "Interrupted")].

Definition stream_reply (k : Z) : gmap string json :=
  request "ExecStreamResponse"
    [("success"%string, JBool true); ("syncVal"%string, JNum k)].

(** ** The other request methods of [Engine] *)

(** [Engine.find_doc] *)
Definition find_doc (identifier : string) : call Response :=
  _await_send (request "RequestOpenDoc"
                 [("identifier"%string, JStr identifier)]) ;;
  reply ← _await_reply : call _;
  lift (_response_from_reply reply).

(** [Engine.get_type]; [show_hole_fits] defaults to [True]. *)
Definition get_type (identifier : string) (show_hole_fits : bool)
  : call Response :=
  _await_send (request "RequestType"
                 [("identifier"%string, JStr identifier);
                  ("showHoleFits"%string, JBool show_hole_fits)]) ;;
  reply ← _await_reply : call _;
  lift (_response_from_reply reply).

(** [Engine.find_source] *)
Definition find_source (identifier : string) : call Response :=
  _await_send (request "RequestOpenSource"
                 [("identifier"%string, JStr identifier)]) ;;
  reply ← _await_reply : call _;
  lift (_response_from_reply reply).

(** ** Notions used in the further properties *)

(** What can happen to the listener object: its thread receives a
    message, or another thread calls [interrupt]. *)
Inductive thread_event :=
| Receives (message : string)
| Interrupts.

Definition thread_step (self : StreamEchoThread) (e : thread_event)
  : StreamEchoThread :=
  match e with
  | Receives message => deliver message self
  | Interrupts => interrupt self
  end.

Definition deliver_all (messages : list string) (self : StreamEchoThread)
  : StreamEchoThread :=
  fold_left (fun s m => deliver m s) messages self.

Definition is_KeyboardInterrupt {A} (o : outcome A) : bool :=
  match o with
  | Raised KeyboardInterrupt => true
  | _ => false
  end.

(** A relation between the events and engine before a call and the way
    the call ended, the events left and the engine after it. *)
Definition call_relation : Type :=
  list event -> Engine -> bool -> list event -> Engine -> Prop.

Definition respects (R : call_relation) {A} (c : call A) : Prop :=
  forall tr self o tr' self',
    c tr self = (o, tr', self') -> R tr self (is_KeyboardInterrupt o) tr' self'.

(** The command channel has seen nothing new. *)
Definition same_comm : call_relation :=
  fun _ self _ _ self' => comm_sent self' = comm_sent self.

(** With no cancellation among the events, none is reported, nothing is
    sent on the control channel and nothing is printed. *)
Definition quiet : call_relation :=
  fun tr self interrupted_ tr' self' =>
    forallb not_cancel tr = true ->
    interrupted_ = false
    /\ forallb not_cancel tr' = true
    /\ ctrl_sent self' = ctrl_sent self
    /\ printed self' = printed self.

(** The requests of the six methods. *)
Inductive method :=
| Execute (code : string)
| ExecStream (code : string)
| FindDoc (identifier : string)
| GetType (identifier : string) (show_hole_fits : bool)
| GetCompletions (line_before_cursor : string)
| FindSource (identifier : string).

Definition request_of (m : method) : gmap string json :=
  match m with
  | Execute code =>
      request "RequestExecCapture" [("content"%string, JStr code)]
  | ExecStream code =>
      request "RequestExecStream" [("content"%string, JStr code)]
  | FindDoc identifier =>
      request "RequestOpenDoc" [("identifier"%string, JStr identifier)]
  | GetType identifier show_hole_fits =>
      request "RequestType"
        [("identifier"%string, JStr identifier);
         ("showHoleFits"%string, JBool show_hole_fits)]
  | GetCompletions line =>
      request "RequestCompletion" [("lineBeforeCursor"%string, JStr line)]
  | FindSource identifier =>
      request "RequestOpenSource" [("identifier"%string, JStr identifier)]
  end.

(** A method call with its result forgotten, to speak of all six at
    once. *)
Definition forget {A} (c : call A) : call unit :=
  fun tr self =>
    match c tr self with
    | (Returned _, tr', self') => (Returned tt, tr', self')
    | (Raised e, tr', self') => (Raised e, tr', self')
    | (Blocked, tr', self') => (Blocked, tr', self')
    end.

Definition invoke (m : method) : call unit :=
  match m with
  | Execute code => forget (execute code)
  | ExecStream code => forget (exec_stream code)
  | FindDoc identifier => forget (find_doc identifier)
  | GetType identifier show_hole_fits =>
      forget (get_type identifier show_hole_fits)
  | GetCompletions line => forget (get_completions line)
  | FindSource identifier => forget (find_source identifier)
  end.

(** The interrupts a method's own handler adds when a cancellation
    comes out of its reply wait: [execute] has such a handler, the other
    methods have none. *)
Definition handler_interrupts (m : method) : nat :=
  match m with
  | Execute _ => 1
  | _ => 0
  end.

(** The engine after a call of [m] that was cancelled during its reply
    wait: [pre0] passed before the request went out, [pre] before the
    cancellation, [mid] before the acknowledgment. *)
Definition after_cancel (m : method) (pre0 pre mid : list event) (self : Engine)
  : Engine :=
  let drained :=
    confirming mid
      (send_interrupt (absorb pre (comm_send (request_of m) (absorb pre0 self))))
  in
  match m with
  | Execute _ => send_interrupt drained
  | _ => drained
  end.

(** An event that brings no marker to the listener. *)
Definition no_marker (e : event) : bool :=
  match e with
  | StreamMessage m =>
      match Re.match_ SYNC_RE m with Some _ => false | None => true end
  | _ => true
  end.

(** * Properties *)

(** ** Text and the marker pattern *)

Section TextFacts.
Local Open Scope string_scope.

Lemma append_cons a s t : String a s +:+ t = String a (s +:+ t).
Proof. reflexivity. Qed.

Lemma append_nil_r s : s +:+ "" = s.
Proof. induction s as [|a s IH]; [done|]. by rewrite append_cons, IH. Qed.

Lemma append_assoc s t u : (s +:+ t) +:+ u = s +:+ (t +:+ u).
Proof.
  induction s as [|a s IH]; [reflexivity|].
  rewrite !append_cons. by rewrite IH.
Qed.

Lemma digit_value_bounds c :
  Text.is_digit c = true -> (0 <= Text.digit_value c <= 9)%Z.
Proof.
  unfold Text.is_digit, Text.digit_value.
  rewrite andb_true_iff, !N.leb_le. lia.
Qed.

Lemma int_from_nonneg s : forall acc,
  Text.all_digits s = true -> (0 <= acc)%Z -> (0 <= Text.int_from acc s)%Z.
Proof.
  induction s as [|c s IH]; intros acc Hs Hacc; simpl in *; [done|].
  apply andb_true_iff in Hs as [Hc Hs].
  apply IH; [done|]. pose proof (digit_value_bounds c Hc). lia.
Qed.

(** A sequence number read from a run of digits is not negative. *)
Lemma int_nonneg s : Text.all_digits s = true -> (0 <= Text.int s)%Z.
Proof. intros Hs. by apply int_from_nonneg. Qed.

(** Literal characters match exactly themselves. *)
Lemma run_lits_app p r : forall s g x,
  Re.run (Re.lits p ++ r)%list s g = Some x <->
  exists s', s = p +:+ s' /\ Re.run r s' g = Some x.
Proof.
  induction p as [|c p IH]; intros s g x; simpl.
  - split; [intros H; by exists s | by intros (s' & -> & H)].
  - destruct s as [|a s].
    + split; [done | by intros (s' & Hs & _)].
    + destruct (Ascii.eqb_spec a c) as [->|Hne].
      * rewrite IH. split; intros (s' & Hs & Hr); exists s'.
        -- by rewrite Hs.
        -- rewrite append_cons in Hs. by simplify_eq.
      * split; [done|]. intros (s' & Hs & _).
        rewrite append_cons in Hs. congruence.
Qed.

Lemma run_lits p s g x :
  Re.run (Re.lits p) s g = Some x <-> (exists s', s = p +:+ s') /\ x = g.
Proof.
  rewrite <- (app_nil_r (Re.lits p)), run_lits_app. simpl.
  split; [intros (s' & -> & [= ->]); eauto | intros [(s' & ->) ->]; eauto].
Qed.

(** The group [(\d+)] followed by the literal text [~#]: because [~]
    is no digit, backing off never succeeds and the group is the
    whole run of digits. *)
Lemma digits1_tail_sound s : forall acc x,
  Re.digits1 (Re.run (Re.lits "~#")) s acc = Some x ->
  exists ds rest, ds <> "" /\ Text.all_digits ds = true
                  /\ s = ds +:+ "~#" +:+ rest /\ x = acc +:+ ds.
Proof.
  induction s as [|a s IH]; intros acc x; cbn [Re.digits1]; [done|].
  destruct (Text.is_digit a) eqn:Ha; [|done].
  destruct (Re.digits1 _ s (acc +:+ String a "")) as [y|] eqn:Hrec.
  - apply IH in Hrec as (ds & rest & Hne & Hds & -> & ->).
    intros [= <-]. exists (String a ds), rest.
    rewrite append_assoc. simpl. by rewrite Ha, Hds.
  - intros Hk. apply run_lits in Hk as [(rest & ->) ->].
    exists (String a ""), rest. simpl. by rewrite Ha.
Qed.

Lemma digits1_tail_complete ds : forall rest acc,
  ds <> "" -> Text.all_digits ds = true ->
  Re.digits1 (Re.run (Re.lits "~#")) (ds +:+ "~#" +:+ rest) acc
  = Some (acc +:+ ds).
Proof.
  induction ds as [|a ds IH]; intros rest acc Hne Hds; [done|].
  simpl in Hds. apply andb_true_iff in Hds as [Ha Hds].
  rewrite append_cons. cbn [Re.digits1]. rewrite Ha.
  destruct ds as [|b ds].
  - reflexivity.
  - rewrite IH by done. by rewrite append_assoc.
Qed.

End TextFacts.

Lemma match_SYNC_RE message g :
  Re.match_ SYNC_RE message = Some g <-> marker_shape message g.
Proof.
  unfold Re.match_, SYNC_RE, marker_shape. cbn [Re.run].
  destruct message as [|d s].
  { split; [done | by intros (? & ? & _ & _ & _ & ?)]. }
  destruct (Text.is_digit d) eqn:Hd.
  - rewrite run_lits_app. cbn [Re.run]. split.
    + intros (s' & -> & Hg).
      apply digits1_tail_sound in Hg as (ds & rest & Hne & Hds & -> & ->).
      by exists d, rest.
    + intros (d' & rest & _ & Hne & Hds & Heq). simplify_eq.
      eexists. split; [reflexivity|].
      by rewrite digits1_tail_complete.
  - split; [done|]. intros (d' & rest & Hd' & _ & _ & Heq).
    simplify_eq. congruence.
Qed.

Lemma marker_shape_marker g :
  g <> EmptyString -> Text.all_digits g = true -> marker_shape (marker g) g.
Proof.
  intros Hne Hg. exists "1"%char, EmptyString.
  rewrite append_nil_r. by repeat split.
Qed.

(** ** The stream listener *)

Example run_body_marker :
  run_body StreamEchoThread_init (marker "12")
  = inr {| last_sync_seq := 12; interrupted := false;
           effects := [NotifyAll]; died := None |}.
Proof. reflexivity. Qed.

Example run_body_out :
  run_body StreamEchoThread_init "1:hello"
  = inr {| last_sync_seq := -1; interrupted := false;
           effects := [PtPrint "hello" stdout]; died := None |}.
Proof. reflexivity. Qed.

Example run_body_bad :
  run_body StreamEchoThread_init "3:hello"
  = inl (ValueError (BadStreamIdentifier "3")).
Proof. reflexivity. Qed.

Lemma run_body_of_marker self message g :
  marker_shape message g ->
  Text.within_int_limit g = true ->
  run_body self message
  = inr {| last_sync_seq := Text.int g; interrupted := false;
           effects := effects self ++ [NotifyAll]; died := died self |}.
Proof.
  intros H Hg. apply match_SYNC_RE in H. unfold run_body. by rewrite H, Hg.
Qed.

(** A marker whose digit run is past the limit of [int] raises before
    anything is changed. *)
Lemma run_body_of_long_marker self message g :
  marker_shape message g ->
  Text.within_int_limit g = false ->
  run_body self message
  = inl (ValueError (ExceedsIntMaxStrDigits (String.length g))).
Proof.
  intros H Hg. apply match_SYNC_RE in H. unfold run_body. by rewrite H, Hg.
Qed.

Lemma not_marker_no_match message :
  (forall g, ~ marker_shape message g) -> Re.match_ SYNC_RE message = None.
Proof.
  intros H. destruct (Re.match_ SYNC_RE message) as [g|] eqn:Hm; [|done].
  apply match_SYNC_RE in Hm. by destruct (H g).
Qed.

Lemma run_body_suppressed self message :
  Re.match_ SYNC_RE message = None -> interrupted self = true ->
  run_body self message = inr self.
Proof. intros Hm Hi. unfold run_body. by rewrite Hm, Hi. Qed.

Lemma run_app self xs ys :
  run self (xs ++ ys)
  = match run self xs with inr self' => run self' ys | inl e => inl e end.
Proof.
  revert self. induction xs as [|x xs IH]; intros self; simpl; [done|].
  destruct (run_body self x); [done | apply IH].
Qed.

Lemma run_routed self messages es :
  interrupted self = false ->
  Forall2 (fun m e => Re.match_ SYNC_RE m = None /\ routed m = Some e) messages es ->
  run self messages = inr (with_effects (effects self ++ es) self).
Proof.
  intros Hi H. revert self Hi.
  induction H as [|m e ms es [Hm Hr] _ IH]; intros self Hi; simpl.
  - destruct self; unfold with_effects; simpl. by rewrite app_nil_r.
  - unfold run_body. rewrite Hm, Hi.
    destruct m as [|c m]; [done|].
    destruct (Ascii.eqb_spec c "1") as [->|H1].
    { simpl in Hr. simplify_eq. rewrite IH by done.
      unfold with_effects, perform; simpl. by rewrite <- app_assoc. }
    destruct (Ascii.eqb_spec c "2") as [->|H2].
    { simpl in Hr. simplify_eq. rewrite IH by done.
      unfold with_effects, perform; simpl. by rewrite <- app_assoc. }
    exfalso. unfold routed in Hr.
    destruct c as [[] [] [] [] [] [] [] []]; simplify_eq; done.
Qed.

Lemma deliver_marker self message g :
  died self = None -> marker_shape message g ->
  Text.within_int_limit g = true ->
  deliver message self
  = {| last_sync_seq := Text.int g; interrupted := false;
       effects := effects self ++ [NotifyAll]; died := None |}.
Proof.
  intros Hd Hm Hg. unfold deliver.
  rewrite Hd, (run_body_of_marker _ _ _ Hm Hg). by rewrite Hd.
Qed.

(** C2, as the code has it.  The cursor after each marker is that
    marker's sequence number, whatever the cursor was before: a marker
    whose number is not greater than the cursor is accepted like any
    other and moves the cursor back.  The sequence numbers are digit
    runs that [int] converts, of at most
    [Text.int_max_str_digits] digits. *)
Theorem cursor_follows_markers
    (self : StreamEchoThread) (messages gs : list string) :
  died self = None ->
  Forall2 marker_shape messages gs ->
  forallb Text.within_int_limit gs = true ->
  cursor_progression self messages = Text.int <$> gs.
Proof.
  intros Hd H. revert self Hd.
  induction H as [|m g ms gs Hm _ IH]; intros self Hd Hlim; simpl; [done|].
  simpl in Hlim. apply andb_true_iff in Hlim as [Hg Hlim].
  rewrite (deliver_marker _ _ _ Hd Hm Hg). simpl. f_equal. by apply IH.
Qed.

Lemma cursor_follows_markers_witness :
  cursor_progression StreamEchoThread_init
    [marker "3"; marker "5"; marker "4"; marker "7"] = [3; 5; 4; 7].
Proof.
  apply (cursor_follows_markers StreamEchoThread_init
           [marker "3"; marker "5"; marker "4"; marker "7"]
           ["3"; "5"; "4"; "7"]%string eq_refl).
  - repeat constructor; by apply marker_shape_marker.
  - reflexivity.
Defined.

(** C2 as stated fails: fed the markers 3, 5, 4, 7 the cursor goes
    3, 5, 4, 7; the 4 is not ignored. *)
Lemma cursor_progression_regresses :
  cursor_progression StreamEchoThread_init
    [marker "3"; marker "5"; marker "4"; marker "7"] = [3; 5; 4; 7]
  /\ cursor_progression StreamEchoThread_init
       [marker "3"; marker "5"; marker "4"; marker "7"] <> [3; 5; 5; 7].
Proof. split; [reflexivity | discriminate]. Qed.

(** C3.  From any state of the listener, [interrupt] sets the
    suppression flag and setting it again changes nothing; the content
    lines that arrive next are dropped, with no effect at all; and the
    first marker after that clears the flag whatever number it
    carries, the number being a digit run that [int] converts (at most
    [Text.int_max_str_digits] digits). *)
Theorem interrupt_suppresses_until_marker
    (self : StreamEchoThread) (lines : list string) (mk g : string) :
  Forall (fun m => Re.match_ SYNC_RE m = None) lines ->
  marker_shape mk g ->
  Text.within_int_limit g = true ->
  interrupted (interrupt self) = true
  /\ interrupt (interrupt self) = interrupt self
  /\ run (interrupt self) lines = inr (interrupt self)
  /\ run (interrupt self) (lines ++ [mk])
     = inr {| last_sync_seq := Text.int g; interrupted := false;
              effects := effects self ++ [NotifyAll]; died := died self |}.
Proof.
  intros Hlines Hmk Hg.
  assert (run (interrupt self) lines = inr (interrupt self)) as Hrun.
  { induction Hlines as [|m ms Hm _ IH]; simpl; [done|].
    by rewrite run_body_suppressed. }
  repeat split; [done|].
  rewrite run_app, Hrun. simpl.
  by rewrite (run_body_of_marker _ _ _ Hmk Hg).
Qed.

Lemma interrupt_suppresses_until_marker_witness :
  run (interrupt StreamEchoThread_init) (["1:late"; "2:noise"; "9"] ++ [marker "2"])
  = inr {| last_sync_seq := 2; interrupted := false;
           effects := [NotifyAll]; died := None |}.
Proof.
  apply (interrupt_suppresses_until_marker StreamEchoThread_init
           ["1:late"; "2:noise"; "9"]%string (marker "2") "2").
  - repeat constructor.
  - by apply marker_shape_marker.
  - reflexivity.
Defined.

(** C4, as the code has it.  A message of ASCII text is a
    synchronization marker exactly when it begins with
    [<digit> #~PTGHCI~SYNC~<n>~#].  When [n] has no more digits than
    [int] converts, the cursor becomes [n], which is not negative, all
    waiters are notified and suppression is cleared; when it has more,
    [int] raises [ValueError] before anything is changed.  Any other
    message is handled as a content line: the cursor and the flag stay
    and nobody is notified. *)
Theorem sync_marker_exactly_sync_re (self : StreamEchoThread) (message : string) :
  Text.is_ascii message = true ->
  (forall g, Re.match_ SYNC_RE message = Some g <-> marker_shape message g)
  /\ (forall g, marker_shape message g ->
        Text.within_int_limit g = true ->
        run_body self message
        = inr {| last_sync_seq := Text.int g; interrupted := false;
                 effects := effects self ++ [NotifyAll]; died := died self |}
        /\ 0 <= Text.int g)
  /\ (forall g, marker_shape message g ->
        Text.within_int_limit g = false ->
        run_body self message
        = inl (ValueError (ExceedsIntMaxStrDigits (String.length g))))
  /\ ((forall g, ~ marker_shape message g) ->
      forall self', run_body self message = inr self' ->
        self' = self \/ exists contents f, self' = perform (PtPrint contents f) self).
Proof.
  intros _.
  split; [intros g; apply match_SYNC_RE|]. split; [|split].
  - intros g Hm Hlim. split; [by apply run_body_of_marker|].
    destruct Hm as (_ & _ & _ & _ & Hg & _). by apply int_nonneg.
  - intros g Hm Hlim. by apply run_body_of_long_marker.
  - intros Hno self'. apply not_marker_no_match in Hno.
    unfold run_body. rewrite Hno.
    destruct (interrupted self); [intros [= <-]; by left|].
    destruct message as [|c s]; [done|].
    destruct (Ascii.eqb c "1"); [intros [= <-]; right; eauto|].
    destruct (Ascii.eqb c "2"); [intros [= <-]; right; eauto|done].
Qed.

Lemma sync_marker_exactly_sync_re_witness :
  run_body StreamEchoThread_init "2 #~PTGHCI~SYNC~41~# trailing"
  = inr {| last_sync_seq := 41; interrupted := false;
           effects := [NotifyAll]; died := None |}
  /\ 0 <= Text.int "41".
Proof.
  apply (proj1 (proj2 (sync_marker_exactly_sync_re StreamEchoThread_init
                         "2 #~PTGHCI~SYNC~41~# trailing" eq_refl)) "41").
  - exists "2"%char, " trailing"%string. by repeat split.
  - reflexivity.
Defined.

(** C4 as stated fails: [1 #~SYNC~5~#] has the form the specification
    gives for a marker, yet the listener prints it as a content line and
    leaves the cursor where it was. *)
Lemma spec_pattern_is_content :
  spec_marker_shape "1 #~SYNC~5~#" "5"
  /\ Re.match_ SYNC_RE "1 #~SYNC~5~#" = None
  /\ run_body StreamEchoThread_init "1 #~SYNC~5~#"
     = inr {| last_sync_seq := -1; interrupted := false;
              effects := [PtPrint "#~SYNC~5~#" stdout]; died := None |}.
Proof. split; [by exists "1"%char | split; reflexivity]. Qed.

(** C5.  A content line that is not suppressed goes to the sink its
    first character selects, [1] to [stdout] and [2] to [stderr], as
    the text after the separator; any other selector raises
    [ValueError].  A series of such lines is printed one by one in the
    order of arrival. *)
Theorem content_routed_by_selector (self : StreamEchoThread) :
  interrupted self = false ->
  (forall stream rest,
      let message := String stream rest in
      Re.match_ SYNC_RE message = None ->
      (stream = "1"%char ->
         run_body self message
         = inr (perform (PtPrint (Text.slice_from 2 message) stdout) self))
      /\ (stream = "2"%char ->
         run_body self message
         = inr (perform (PtPrint (Text.slice_from 2 message) stderr) self))
      /\ (stream <> "1"%char -> stream <> "2"%char ->
         run_body self message = inl (ValueError (BadStreamIdentifier stream))))
  /\ (forall messages es,
        Forall2 (fun m e => Re.match_ SYNC_RE m = None /\ routed m = Some e)
                messages es ->
        run self messages = inr (with_effects (effects self ++ es) self)).
Proof.
  intros Hi. split; [|intros ms es; by apply run_routed].
  intros stream rest message Hm. unfold run_body. rewrite Hm, Hi.
  subst message. repeat split.
  - by intros ->.
  - by intros ->.
  - intros H1 H2.
    destruct (Ascii.eqb_spec stream "1"); [done|].
    by destruct (Ascii.eqb_spec stream "2").
Qed.

Lemma content_routed_by_selector_witness :
  run StreamEchoThread_init ["1:a"; "2:b"; "1:c"]
  = inr (with_effects
           ([] ++ [PtPrint "a" stdout; PtPrint "b" stderr; PtPrint "c" stdout])
           StreamEchoThread_init)
  /\ run_body StreamEchoThread_init "7:x"
     = inl (ValueError (BadStreamIdentifier "7")).
Proof.
  split.
  - apply (proj2 (content_routed_by_selector StreamEchoThread_init eq_refl)).
    repeat constructor.
  - by apply (proj1 (content_routed_by_selector StreamEchoThread_init eq_refl)
                "7"%char ":x"%string eq_refl).
Defined.

(** A message with no selector at all raises as well. *)
Remark empty_line_raises self :
  interrupted self = false -> run_body self "" = inl IndexError.
Proof. intros Hi. unfold run_body. simpl. by rewrite Hi. Qed.

(** ** The command client *)

(** The two polls return as soon as the event they wait for is there;
    what passed before was handled by the listener. *)
Lemma await_send_returns msg pre tr self :
  forallb send_waits pre = true ->
  _await_send msg (pre ++ Writable :: tr) self
  = (Returned tt, tr, comm_send msg (absorb pre self)).
Proof.
  revert self. induction pre as [|e pre IH]; intros self H; simpl in *; [done|].
  apply andb_true_iff in H as [He H].
  destruct e; simpl in *; try done; by apply IH.
Qed.

Lemma await_reply_returns reply pre tr self :
  forallb reply_waits pre = true ->
  _await_reply (pre ++ Reply reply :: tr) self
  = (Returned reply, tr, absorb pre self).
Proof.
  revert self. induction pre as [|e pre IH]; intros self H; simpl in *; [done|].
  apply andb_true_iff in H as [He H].
  destruct e; simpl in *; try done; by apply IH.
Qed.

Lemma await_confirmation_raises {A} ack mid tr self :
  forallb (fun e => negb (is_reply e)) mid = true ->
  @await_confirmation A (mid ++ Reply ack :: tr) self
  = (Raised KeyboardInterrupt, tr, confirming mid self).
Proof.
  revert self. induction mid as [|e mid IH]; intros self H; simpl in *; [done|].
  apply andb_true_iff in H as [He H].
  destruct e; simpl in *; try done; by apply IH.
Qed.

Lemma await_confirmation_blocked {A} mid self :
  forallb (fun e => negb (is_reply e)) mid = true ->
  @await_confirmation A mid self = (Blocked, [], confirming mid self).
Proof.
  revert self. induction mid as [|e mid IH]; intros self H; simpl in *; [done|].
  apply andb_true_iff in H as [He H].
  destruct e; simpl in *; try done; by apply IH.
Qed.

Lemma await_reply_cancelled pre tr self :
  forallb reply_waits pre = true ->
  _await_reply (pre ++ Cancel :: tr) self
  = await_confirmation tr (send_interrupt (absorb pre self)).
Proof.
  revert self. induction pre as [|e pre IH]; intros self H; simpl in *; [done|].
  apply andb_true_iff in H as [He H].
  destruct e; simpl in *; try done; by apply IH.
Qed.

Lemma confirming_ctrl_sent mid : forall self,
  ctrl_sent (confirming mid self)
  = ctrl_sent self ++ replicate (count_cancel mid) "Interrupt"%string.
Proof.
  induction mid as [|e mid IH]; intros self; simpl.
  - by rewrite app_nil_r.
  - unfold confirming in *. simpl. rewrite IH.
    destruct e; simpl; try done. by rewrite <- app_assoc.
Qed.

Lemma absorb_ctrl_sent tr : forall self,
  ctrl_sent (absorb tr self) = ctrl_sent self.
Proof.
  induction tr as [|e tr IH]; intros self; [done|].
  unfold absorb in *. simpl. rewrite IH. by destruct e.
Qed.

Lemma reply_waits_not_reply tr :
  forallb reply_waits tr = true ->
  forallb (fun e => negb (is_reply e)) tr = true /\ count_cancel tr = 0%nat.
Proof.
  induction tr as [|e tr IH]; [done|]. simpl.
  intros H. apply andb_true_iff in H as [He H].
  destruct (IH H) as [H1 H2]. by destruct e.
Qed.

(** What [await_sync] guarantees, whatever the events: a return means
    the cursor has reached the target, and the only exception it lets
    out on an integer target is the cancellation that interrupted it. *)
Lemma await_sync_inv k tr : forall self o tr' self',
  await_sync (JNum k) tr self = (o, tr', self') ->
  match o with
  | Returned _ => k <= cursor self'
  | Raised e =>
      e = KeyboardInterrupt /\ cursor self' < k
      /\ exists waited, tr = waited ++ Cancel :: tr'
                        /\ forallb not_cancel waited = true
                        /\ self' = absorb waited self
  | Blocked => cursor self' < k /\ tr' = []
  end.
Proof.
  induction tr as [|e tr IH]; intros self o tr' self'; simpl;
    fold (cursor self); destruct (Z.leb_spec k (cursor self)) as [Hle|Hlt];
    try (intros [= <- <- <-]; done).
  destruct e; try (intros H; apply IH in H; destruct o; try done;
    destruct H as (-> & Hc & waited & -> & Hw & ->); repeat split; try done;
    by eexists (_ :: waited)).
  intros [= <- <- <-]. repeat split; [done|]. by exists [].
Qed.

(** Without a cancellation, [await_sync] returns once the listener has
    brought the cursor to the target. *)
Lemma await_sync_returns k waited rest : forall self,
  forallb not_cancel waited = true ->
  k <= cursor (absorb waited self) ->
  exists tr' self',
    await_sync (JNum k) (waited ++ rest) self = (Returned tt, tr', self')
    /\ k <= cursor self'.
Proof.
  induction waited as [|e waited IH]; intros self Hw Hk; simpl in *.
  - destruct rest as [|e rest]; simpl; fold (cursor self);
      destruct (Z.leb_spec k (cursor self)); try lia; eauto.
  - fold (cursor self). destruct (Z.leb_spec k (cursor self)); [eauto|].
    apply andb_true_iff in Hw as [He Hw].
    destruct e; try done; by apply IH.
Qed.

(** Waiting for the marker sends nothing on the control channel. *)
Lemma await_sync_ctrl_sent v tr : forall self o tr' self',
  await_sync v tr self = (o, tr', self') -> ctrl_sent self' = ctrl_sent self.
Proof.
  induction tr as [|e tr IH]; intros self o tr' self'; simpl;
    destruct (ge_json _ v) as [?|[]]; try (intros [= <- <- <-]; done).
  destruct e; try (intros H; by apply IH in H).
  by intros [= <- <- <-].
Qed.

(** A cancellation that arrives while the cursor is still short of the
    target ends the wait. *)
Lemma await_sync_cancelled k waited tr : forall self,
  forallb not_cancel waited = true ->
  stays_below k waited self = true ->
  await_sync (JNum k) (waited ++ Cancel :: tr) self
  = (Raised KeyboardInterrupt, tr, absorb waited self).
Proof.
  induction waited as [|e waited IH]; intros self Hw Hp; simpl in *;
    apply andb_true_iff in Hp as [Hlt Hp]; apply Z.ltb_lt in Hlt;
    fold (cursor self);
    (destruct (Z.leb_spec k (cursor self)) as [Hle|_]; [lia|]); [done|].
  apply andb_true_iff in Hw as [He Hw].
  destruct e; try done; by apply IH.
Qed.

Lemma lift_eq {A} (r : exn + A) tr self : lift r tr self = (of_result r, tr, self).
Proof. by destruct r. Qed.

(** Interpreting a reply never raises [KeyboardInterrupt]. *)
Lemma response_not_interrupt reply :
  _response_from_reply reply <> inl KeyboardInterrupt.
Proof.
  unfold _response_from_reply, getitem.
  repeat (match goal with
          | |- context [match ?m !! ?k with _ => _ end] => destruct (m !! k)
          | |- context [if ?b then _ else _] => destruct b
          end; try done).
Qed.

(** [execute] once the request is out: the reply is interpreted, and a
    cancellation that comes out of the wait sends one more interrupt. *)
Lemma execute_after_send code tr self tr1 self1 :
  _await_send (request "RequestExecCapture" [("content"%string, JStr code)]) tr self
  = (Returned tt, tr1, self1) ->
  execute code tr self
  = match _await_reply tr1 self1 with
    | (Returned reply, tr2, self2) =>
        (of_result (_response_from_reply reply), tr2, self2)
    | (Raised KeyboardInterrupt, tr2, self2) =>
        (Raised KeyboardInterrupt, tr2, send_interrupt self2)
    | other => (match other.1.1 with
                | Raised e => Raised e | _ => Blocked end, other.1.2, other.2)
    end.
Proof.
  intros Hs. unfold execute, mbind, call_bind, bind. rewrite Hs.
  unfold try_except_KeyboardInterrupt.
  destruct (_await_reply tr1 self1) as [[[reply|e|] tr2] self2]; simpl.
  - rewrite lift_eq. pose proof (response_not_interrupt reply) as Hn.
    destruct (_response_from_reply reply) as [[]|]; done.
  - by destruct e.
  - done.
Qed.

(** [exec_stream] once the reply is in. *)
Lemma exec_stream_after_reply code tr self tr1 self1 message tr2 self2 :
  _await_send (request "RequestExecStream" [("content"%string, JStr code)]) tr self
  = (Returned tt, tr1, self1) ->
  _await_reply tr1 self1 = (Returned message, tr2, self2) ->
  exec_stream code tr self
  = match message !! "success" with
    | None => (Raised (KeyError "success"), tr2, self2)
    | Some success =>
        if truthy success then
          match message !! "syncVal" with
          | None => (Raised (KeyError "syncVal"), tr2, self2)
          | Some syncVal =>
              match await_sync syncVal tr2 self2 with
              | (Returned _, tr3, self3) =>
                  (of_result (_response_from_reply message), tr3, self3)
              | (Raised KeyboardInterrupt, tr3, self3) =>
                  (of_result (_response_from_reply message), tr3,
                   send_interrupt self3)
              | (Raised e, tr3, self3) => (Raised e, tr3, self3)
              | (Blocked, tr3, self3) => (Blocked, tr3, self3)
              end
          end
        else (of_result (_response_from_reply message), tr2, self2)
    end.
Proof.
  intros Hs Hr. unfold exec_stream, mbind, call_bind, bind. rewrite Hs, Hr.
  unfold getitem at 1. destruct (message !! "success") as [success|]; [|done].
  simpl. destruct (truthy success); [|simpl; by rewrite lift_eq].
  unfold try_except_KeyboardInterrupt, bind, getitem at 1.
  destruct (message !! "syncVal") as [syncVal|]; [|done]. simpl.
  destruct (await_sync syncVal tr2 self2) as [[[[]|e|] tr3] self3]; simpl.
  - by rewrite lift_eq.
  - destruct e; try done. unfold modify. by rewrite lift_eq.
  - done.
Qed.

Lemma eq_str_false v s : v <> JStr s -> eq_str v s = false.
Proof.
  intros Hne. destruct v; try done. simpl.
  destruct (String.eqb_spec s0 s); congruence.
Qed.

(** C6.  A cancellation seen while polling for the reply sends the
    interrupt and sets the listener's suppression flag; the call then
    stays in the receive loop, where every further cancellation sends
    the interrupt once more; and when the acknowledgment arrives it is
    consumed and only then is [KeyboardInterrupt] raised to the
    caller. *)
Theorem await_reply_cancellation
    (pre mid tr : list event) (ack : gmap string json) (self : Engine) :
  forallb reply_waits pre = true ->
  forallb (fun e => negb (is_reply e)) mid = true ->
  let self1 := send_interrupt (absorb pre self) in
  ctrl_sent self1 = ctrl_sent self ++ ["Interrupt"%string]
  /\ interrupted (iopub_thread self1) = true
  /\ _await_reply (pre ++ Cancel :: mid) self
     = (Blocked, [], confirming mid self1)
  /\ _await_reply (pre ++ Cancel :: mid ++ Reply ack :: tr) self
     = (Raised KeyboardInterrupt, tr, confirming mid self1)
  /\ ctrl_sent (confirming mid self1)
     = ctrl_sent self ++ replicate (S (count_cancel mid)) "Interrupt"%string.
Proof.
  intros Hpre Hmid self1. subst self1. repeat split.
  - simpl. by rewrite absorb_ctrl_sent.
  - rewrite (await_reply_cancelled _ _ _ Hpre).
    by apply await_confirmation_blocked.
  - rewrite (await_reply_cancelled _ _ _ Hpre).
    by apply await_confirmation_raises.
  - rewrite confirming_ctrl_sent. simpl.
    rewrite absorb_ctrl_sent, <- app_assoc. done.
Qed.

Lemma await_reply_cancellation_witness :
  _await_reply
    ([Timeout; StreamMessage "1:out"] ++ Cancel
       :: [Timeout; Cancel; StreamMessage "1:late"] ++ Reply ack_reply :: [Timeout])
    Engine_init
  = (Raised KeyboardInterrupt, [Timeout],
     confirming [Timeout; Cancel; StreamMessage "1:late"]
       (send_interrupt (absorb [Timeout; StreamMessage "1:out"] Engine_init))).
Proof.
  apply (await_reply_cancellation
           [Timeout; StreamMessage "1:out"]
           [Timeout; Cancel; StreamMessage "1:late"]
           [Timeout] ack_reply Engine_init eq_refl eq_refl).
Defined.

(** C10.  One cancellation during the reply wait of [execute] puts the
    interrupt on the control channel twice before the caller sees the
    [KeyboardInterrupt]: [_await_reply] sends it and drains the
    acknowledgment, and the handler in [execute] sends it again. *)
Theorem execute_single_cancel_two_interrupts
    (code : string) (pre0 pre mid tr : list event)
    (ack : gmap string json) (self : Engine) :
  forallb send_waits pre0 = true ->
  forallb reply_waits pre = true ->
  forallb reply_waits mid = true ->
  exists self',
    execute code (pre0 ++ Writable :: pre ++ Cancel :: mid ++ Reply ack :: tr) self
    = (Raised KeyboardInterrupt, tr, self')
    /\ ctrl_sent self' = ctrl_sent self ++ ["Interrupt"; "Interrupt"]%string.
Proof.
  intros H0 Hpre Hmid.
  apply reply_waits_not_reply in Hmid as [Hmid Hcount].
  eexists. split.
  - rewrite (execute_after_send _ _ _ _ _ (await_send_returns _ _ _ _ H0)).
    rewrite (await_reply_cancelled _ _ _ Hpre).
    by rewrite (await_confirmation_raises _ _ _ _ Hmid).
  - simpl. rewrite confirming_ctrl_sent, Hcount. simpl.
    rewrite !absorb_ctrl_sent. simpl. rewrite absorb_ctrl_sent.
    by rewrite app_nil_r, <- app_assoc.
Qed.

Lemma execute_single_cancel_two_interrupts_witness :
  exists self',
    execute "sum [1..]"
      ([Timeout] ++ Writable :: [Timeout] ++ Cancel
         :: [Timeout; StreamMessage "1:late"] ++ Reply ack_reply :: [])
      Engine_init
    = (Raised KeyboardInterrupt, [], self')
    /\ ctrl_sent self' = ctrl_sent Engine_init ++ ["Interrupt"; "Interrupt"]%string.
Proof.
  apply (execute_single_cancel_two_interrupts "sum [1..]"
           [Timeout] [Timeout] [Timeout; StreamMessage "1:late"] [] ack_reply
           Engine_init eq_refl eq_refl eq_refl).
Defined.

(** C8.  [execute], once its request is sent and the reply is in:
    an [ExecCaptureResponse] with [success] true and content [c] gives
    [Value c], one with [success] false and content [e] gives
    [ErrorMessage e], and a reply whose tag is neither of the two known
    response tags raises [ValueError] and returns nothing. *)
Theorem execute_interprets_reply
    (code : string) (tr tr1 tr2 : list event) (self self1 self2 : Engine)
    (reply : gmap string json) :
  _await_send (request "RequestExecCapture" [("content"%string, JStr code)]) tr self
  = (Returned tt, tr1, self1) ->
  _await_reply tr1 self1 = (Returned reply, tr2, self2) ->
  (forall c,
      reply !! "tag" = Some (JStr "ExecCaptureResponse") ->
      reply !! "success" = Some (JBool true) ->
      reply !! "content" = Some c ->
      execute code tr self = (Returned (Value c), tr2, self2))
  /\ (forall e,
      reply !! "tag" = Some (JStr "ExecCaptureResponse") ->
      reply !! "success" = Some (JBool false) ->
      reply !! "content" = Some e ->
      execute code tr self = (Returned (ErrorMessage e), tr2, self2))
  /\ (forall t,
      reply !! "tag" = Some t ->
      t <> JStr "ExecCaptureResponse" -> t <> JStr "ExecStreamResponse" ->
      execute code tr self
      = (Raised (ValueError (UnexpectedResponseType t)), tr2, self2)).
Proof.
  intros Hs Hr. rewrite (execute_after_send _ _ _ _ _ Hs), Hr.
  unfold _response_from_reply, getitem. repeat split.
  - intros c -> -> ->. reflexivity.
  - intros e -> -> ->. reflexivity.
  - intros t -> H1 H2. by rewrite !eq_str_false.
Qed.

Lemma execute_interprets_reply_witness :
  execute "1+1"
    [Writable;
     Reply (request "ExecCaptureResponse"
              [("success"%string, JBool true); ("content"%string, JStr "2")])]
    Engine_init
  = (Returned (Value (JStr "2")), [],
     comm_send (request "RequestExecCapture" [("content"%string, JStr "1+1")])
       Engine_init).
Proof.
  set (sent := comm_send (request "RequestExecCapture"
                            [("content"%string, JStr "1+1")]) Engine_init).
  set (reply := request "ExecCaptureResponse"
                  [("success"%string, JBool true); ("content"%string, JStr "2")]).
  apply (proj1 (execute_interprets_reply "1+1"
                  [Writable; Reply reply] [Reply reply] []
                  Engine_init sent sent reply eq_refl eq_refl)
           (JStr "2")); reflexivity.
Defined.

(** C9.  [get_completions], once its request is sent and the reply is
    in: with [success] true it returns the pair of [startChars] and
    [candidates] as the reply holds them; with [success] false or with
    no [success] field it returns [None], and raises nothing. *)
Theorem get_completions_interprets_reply
    (line : string) (tr tr1 tr2 : list event) (self self1 self2 : Engine)
    (reply : gmap string json) :
  _await_send (request "RequestCompletion"
                 [("lineBeforeCursor"%string, JStr line)]) tr self
  = (Returned tt, tr1, self1) ->
  _await_reply tr1 self1 = (Returned reply, tr2, self2) ->
  (forall n cs,
      reply !! "success" = Some (JBool true) ->
      reply !! "startChars" = Some n ->
      reply !! "candidates" = Some (JArr cs) ->
      get_completions line tr self = (Returned (Some (n, JArr cs)), tr2, self2))
  /\ (reply !! "success" = Some (JBool false) \/ reply !! "success" = None ->
      get_completions line tr self = (Returned None, tr2, self2)).
Proof.
  intros Hs Hr. unfold get_completions, mbind, call_bind, bind.
  rewrite Hs, Hr. split.
  - intros n cs -> Hn Hcs. simpl. unfold getitem. by rewrite Hn, Hcs.
  - by intros [-> | ->].
Qed.

Lemma get_completions_interprets_reply_witness :
  get_completions "foo."
    [Writable;
     Reply (request "CompletionResponse"
              [("success"%string, JBool true); ("startChars"%string, JNum 3);
               ("candidates"%string, JArr [JStr "bar"; JStr "baz"])])]
    Engine_init
  = (Returned (Some (JNum 3, JArr [JStr "bar"; JStr "baz"])), [],
     comm_send (request "RequestCompletion"
                  [("lineBeforeCursor"%string, JStr "foo.")]) Engine_init).
Proof.
  set (sent := comm_send (request "RequestCompletion"
                            [("lineBeforeCursor"%string, JStr "foo.")])
                 Engine_init).
  set (reply := request "CompletionResponse"
                  [("success"%string, JBool true); ("startChars"%string, JNum 3);
                   ("candidates"%string, JArr [JStr "bar"; JStr "baz"])]).
  apply (proj1 (get_completions_interprets_reply "foo."
                  [Writable; Reply reply] [Reply reply] []
                  Engine_init sent sent reply eq_refl eq_refl)
           (JNum 3) [JStr "bar"; JStr "baz"]); reflexivity.
Defined.

(** C7.  When the reply to [exec_stream] reports success and a
    cancellation arrives while [await_sync] is still short of its
    target, the method sends the interrupt, which also tells the
    listener to suppress, and returns what the reply already received
    gives: [Stream] for an [ExecStreamResponse].  The
    [KeyboardInterrupt] does not reach the caller. *)
Theorem exec_stream_cancelled_wait
    (code : string) (tr tr1 tr2 waited tr3 : list event)
    (self self1 self2 : Engine) (message : gmap string json) (k : Z) :
  _await_send (request "RequestExecStream" [("content"%string, JStr code)]) tr self
  = (Returned tt, tr1, self1) ->
  _await_reply tr1 self1 = (Returned message, tr2, self2) ->
  message !! "success" = Some (JBool true) ->
  message !! "syncVal" = Some (JNum k) ->
  tr2 = waited ++ Cancel :: tr3 ->
  forallb not_cancel waited = true ->
  stays_below k waited self2 = true ->
  let self3 := send_interrupt (absorb waited self2) in
  exec_stream code tr self
  = (of_result (_response_from_reply message), tr3, self3)
  /\ ctrl_sent self3 = ctrl_sent self2 ++ ["Interrupt"%string]
  /\ interrupted (iopub_thread self3) = true
  /\ (message !! "tag" = Some (JStr "ExecStreamResponse") ->
      exec_stream code tr self = (Returned Stream, tr3, self3)).
Proof.
  intros Hs Hr Hsucc Hsync -> Hw Hp self3.
  assert (exec_stream code tr self
          = (of_result (_response_from_reply message), tr3, self3)) as Heq.
  { rewrite (exec_stream_after_reply _ _ _ _ _ _ _ _ Hs Hr), Hsucc, Hsync.
    simpl. by rewrite (await_sync_cancelled _ _ _ _ Hw Hp). }
  repeat split; try done.
  - subst self3. simpl. by rewrite absorb_ctrl_sent.
  - intros Htag. rewrite Heq.
    unfold _response_from_reply, getitem. by rewrite Htag, Hsucc.
Qed.

Lemma exec_stream_cancelled_wait_witness :
  exec_stream "main"
    [Writable; Reply (stream_reply 5); StreamMessage "1:tick"; Cancel; Timeout]
    Engine_init
  = (Returned Stream, [Timeout],
     send_interrupt
       (absorb [StreamMessage "1:tick"]
          (comm_send (request "RequestExecStream"
                        [("content"%string, JStr "main")]) Engine_init))).
Proof.
  set (sent := comm_send (request "RequestExecStream"
                            [("content"%string, JStr "main")]) Engine_init).
  refine (proj2 (proj2 (proj2
    (exec_stream_cancelled_wait "main"
       [Writable; Reply (stream_reply 5); StreamMessage "1:tick"; Cancel; Timeout]
       [Reply (stream_reply 5); StreamMessage "1:tick"; Cancel; Timeout]
       [StreamMessage "1:tick"; Cancel; Timeout]
       [StreamMessage "1:tick"] [Timeout]
       Engine_init sent sent (stream_reply 5) 5
       eq_refl eq_refl eq_refl eq_refl eq_refl eq_refl eq_refl))) eq_refl).
Defined.

(** C1, as the code has it.  Take an [exec_stream] call whose reply is
    an [ExecStreamResponse].  With [success] true and [syncVal] the
    integer [k], the rest of the call is [await_sync k]: it returns
    [Stream], and when it returns either the cursor has reached [k] or
    a cancellation ended the wait; it does return, without interrupt,
    as soon as the listener brings the cursor to [k] with no
    cancellation before that.  With [success] false and content [e] it
    returns [ErrorMessage e] at once: no event is consumed after the
    reply and the engine is as the reply left it. *)
Theorem exec_stream_waits_unless_cancelled
    (code : string) (tr tr1 tr2 : list event) (self self1 self2 : Engine)
    (message : gmap string json) :
  _await_send (request "RequestExecStream" [("content"%string, JStr code)]) tr self
  = (Returned tt, tr1, self1) ->
  _await_reply tr1 self1 = (Returned message, tr2, self2) ->
  message !! "tag" = Some (JStr "ExecStreamResponse") ->
  (forall k,
      message !! "success" = Some (JBool true) ->
      message !! "syncVal" = Some (JNum k) ->
      exec_stream code tr self
      = match await_sync (JNum k) tr2 self2 with
        | (Returned _, tr3, self3) => (Returned Stream, tr3, self3)
        | (Raised _, tr3, self3) => (Returned Stream, tr3, send_interrupt self3)
        | (Blocked, tr3, self3) => (Blocked, tr3, self3)
        end
      /\ (forall res tr3 self3,
            exec_stream code tr self = (Returned res, tr3, self3) ->
            res = Stream
            /\ (k <= cursor self3
                \/ exists waited, tr2 = waited ++ Cancel :: tr3
                                  /\ forallb not_cancel waited = true))
      /\ (forall waited rest,
            tr2 = waited ++ rest ->
            forallb not_cancel waited = true ->
            k <= cursor (absorb waited self2) ->
            exists tr3 self3,
              exec_stream code tr self = (Returned Stream, tr3, self3)
              /\ k <= cursor self3
              /\ ctrl_sent self3 = ctrl_sent self2))
  /\ (forall e,
      message !! "success" = Some (JBool false) ->
      message !! "content" = Some e ->
      exec_stream code tr self = (Returned (ErrorMessage e), tr2, self2)).
Proof.
  intros Hs Hr Htag.
  pose proof (exec_stream_after_reply _ _ _ _ _ _ _ _ Hs Hr) as Hex.
  split.
  - intros k Hsucc Hsync. rewrite Hsucc, Hsync in Hex. simpl in Hex.
    assert (_response_from_reply message = inr Stream) as Hresp.
    { unfold _response_from_reply, getitem. by rewrite Htag, Hsucc. }
    rewrite Hresp in Hex. simpl in Hex.
    destruct (await_sync (JNum k) tr2 self2) as [[o tr3] self3] eqn:Hwait.
    pose proof (await_sync_inv _ _ _ _ _ _ Hwait) as Hinv.
    assert (exec_stream code tr self
            = match o with
              | Returned _ => (Returned Stream, tr3, self3)
              | Raised _ => (Returned Stream, tr3, send_interrupt self3)
              | Blocked => (Blocked, tr3, self3)
              end) as Heq.
    { rewrite Hex. destruct o as [[]|e|]; try done.
      by destruct Hinv as [-> _]. }
    split; [by rewrite Heq|]. split.
    + intros res tr3' self3'. rewrite Heq.
      destruct o as [[]|e|]; intros [= <- <- <-]; split; try done.
      * by left.
      * right. destruct Hinv as (_ & _ & waited & -> & Hw & _). eauto.
    + intros waited rest -> Hw Hk.
      destruct (await_sync_returns k waited rest self2 Hw Hk)
        as (tr3' & self3' & Hret & Hk').
      rewrite Hret in Hwait. simplify_eq. rewrite Heq.
      eexists _, _. repeat split; try done.
      by apply (await_sync_ctrl_sent _ _ _ _ _ _ Hret).
  - intros e Hsucc Hcont. rewrite Hex, Hsucc. simpl.
    unfold _response_from_reply, getitem. by rewrite Htag, Hsucc, Hcont.
Qed.

Lemma exec_stream_waits_unless_cancelled_witness :
  exists tr3 self3,
    exec_stream "main"
      [Writable; Reply (stream_reply 5); StreamMessage "1:tick";
       StreamMessage (marker "5"); Timeout]
      Engine_init
    = (Returned Stream, tr3, self3)
    /\ 5 <= cursor self3
    /\ ctrl_sent self3
       = ctrl_sent (comm_send (request "RequestExecStream"
                                 [("content"%string, JStr "main")]) Engine_init).
Proof.
  set (sent := comm_send (request "RequestExecStream"
                            [("content"%string, JStr "main")]) Engine_init).
  apply (proj2 (proj2 (proj1
    (exec_stream_waits_unless_cancelled "main"
       [Writable; Reply (stream_reply 5); StreamMessage "1:tick";
        StreamMessage (marker "5"); Timeout]
       [Reply (stream_reply 5); StreamMessage "1:tick";
        StreamMessage (marker "5"); Timeout]
       [StreamMessage "1:tick"; StreamMessage (marker "5"); Timeout]
       Engine_init sent sent (stream_reply 5) eq_refl eq_refl eq_refl)
    5 eq_refl eq_refl))
    [StreamMessage "1:tick"; StreamMessage (marker "5")] [Timeout]
    eq_refl eq_refl).
  vm_compute. discriminate.
Defined.

(** C1 as stated fails: the reply reports success with [syncVal] 5, a
    cancellation arrives during the wait, and [exec_stream] returns
    [Stream] while the cursor is still at -1. *)
Lemma exec_stream_returns_before_sync :
  let result :=
    exec_stream "main" [Writable; Reply (stream_reply 5); Cancel] Engine_init in
  result.1.1 = Returned Stream
  /\ result.1.2 = []
  /\ cursor result.2 = -1
  /\ cursor result.2 < 5.
Proof. vm_compute. by repeat split. Qed.


(** * Further properties *)

(** ** The listener *)

Lemma match_all_digits message g :
  Re.match_ SYNC_RE message = Some g -> 0 <= Text.int g.
Proof.
  intros H. apply match_SYNC_RE in H as (_ & _ & _ & _ & Hg & _).
  by apply int_nonneg.
Qed.

(** What a delivered message can do to the listener: nothing, a marker
    turn, a print, or its death. *)
Lemma deliver_cases message self :
  deliver message self = self
  \/ (exists g, Re.match_ SYNC_RE message = Some g
               /\ deliver message self
                  = {| last_sync_seq := Text.int g; interrupted := false;
                       effects := effects self ++ [NotifyAll];
                       died := died self |})
  \/ (exists contents f,
        deliver message self = perform (PtPrint contents f) self)
  \/ (exists e, died self = None
               /\ deliver message self
                  = {| last_sync_seq := last_sync_seq self;
                       interrupted := interrupted self;
                       effects := effects self; died := Some e |}).
Proof.
  unfold deliver, run_body.
  destruct (died self) eqn:Hd; [by left|].
  destruct (Re.match_ SYNC_RE message) as [g|] eqn:Hm.
  { destruct (Text.within_int_limit g); [|right; right; right; eauto].
    right; left. by exists g. }
  destruct (interrupted self); [by left|].
  destruct message as [|c s]; [right; right; right; eauto|].
  destruct (Ascii.eqb c "1"); [right; right; left; eauto|].
  destruct (Ascii.eqb c "2"); [right; right; left; eauto|].
  right; right; right; eauto.
Qed.

(** X1.  Whatever messages arrive and whenever [interrupt] is called,
    the cursor of a listener never drops below its initial -1, and once
    waiters have been notified it is not negative. *)
Theorem cursor_never_below_initial (evs : list thread_event) :
  let self := fold_left thread_step evs StreamEchoThread_init in
  -1 <= last_sync_seq self
  /\ (In NotifyAll (effects self) -> 0 <= last_sync_seq self).
Proof.
  set (Inv := fun s : StreamEchoThread =>
                -1 <= last_sync_seq s
                /\ (In NotifyAll (effects s) -> 0 <= last_sync_seq s)).
  assert (forall s, Inv s -> Inv (fold_left thread_step evs s)) as Hall.
  { induction evs as [|e evs IH]; intros s Hs; [done|].
    simpl. apply IH. destruct e as [m|]; simpl; [|done].
    destruct Hs as [H1 H2].
    destruct (deliver_cases m s) as [->|[(g & Hg & ->)|[(c & f & ->)|(e & _ & ->)]]];
      try done.
    - apply match_all_digits in Hg. split; simpl; [lia|done].
    - split; simpl; [done|]. intros Hin. apply H2.
      apply in_app_or in Hin as [Hin|[Hin|[]]]; done. }
  apply Hall. split; simpl; [lia|done].
Qed.

Lemma deliver_dead message self :
  died self <> None -> deliver message self = self.
Proof. unfold deliver. by destruct (died self). Qed.

Lemma deliver_all_dead messages : forall self,
  died self <> None -> deliver_all messages self = self.
Proof.
  induction messages as [|m ms IH]; intros self Hd; [done|].
  unfold deliver_all in *. simpl. rewrite deliver_dead by done. by apply IH.
Qed.

Lemma cursor_progression_dead messages : forall self,
  died self <> None ->
  cursor_progression self messages
  = replicate (length messages) (last_sync_seq self).
Proof.
  induction messages as [|m ms IH]; intros self Hd; [done|].
  simpl. rewrite deliver_dead by done. by rewrite IH.
Qed.

(** X2.  A content line with an unknown selector, reaching a live
    listener that is not suppressed, ends the listener: whatever arrives
    afterwards, markers included, changes nothing, so the cursor stays
    where it was and nothing more is printed. *)
Theorem bad_selector_ends_listener
    (self : StreamEchoThread) (stream : ascii) (rest : string)
    (later : list string) :
  died self = None ->
  interrupted self = false ->
  Re.match_ SYNC_RE (String stream rest) = None ->
  stream <> "1"%char -> stream <> "2"%char ->
  let dead := deliver (String stream rest) self in
  died dead = Some (ValueError (BadStreamIdentifier stream))
  /\ effects dead = effects self
  /\ deliver_all later dead = dead
  /\ cursor_progression dead later
     = replicate (length later) (last_sync_seq self).
Proof.
  intros Hd Hi Hm H1 H2 dead.
  assert (dead = {| last_sync_seq := last_sync_seq self;
                    interrupted := interrupted self;
                    effects := effects self;
                    died := Some (ValueError (BadStreamIdentifier stream)) |})
    as Hdead.
  { subst dead. unfold deliver, run_body. rewrite Hd, Hm, Hi.
    destruct (Ascii.eqb_spec stream "1"); [done|].
    by destruct (Ascii.eqb_spec stream "2"). }
  rewrite Hdead. repeat split.
  - by apply deliver_all_dead.
  - by rewrite cursor_progression_dead.
Qed.

Lemma bad_selector_ends_listener_witness :
  deliver_all [marker "4"; "1:more"%string]
    (deliver "3:oops" StreamEchoThread_init)
  = deliver "3:oops" StreamEchoThread_init.
Proof.
  apply (bad_selector_ends_listener StreamEchoThread_init "3" ":oops"
           [marker "4"; "1:more"%string] eq_refl eq_refl eq_refl).
  - discriminate.
  - discriminate.
Defined.

(** ** Replies *)

Lemma eq_str_true v s : eq_str v s = true <-> v = JStr s.
Proof.
  destruct v; simpl; try (split; [done | discriminate]).
  rewrite String.eqb_eq. split; [by intros -> | by intros [= ->]].
Qed.

Ltac case_reply :=
  repeat match goal with
    | |- context [match ?m !! ?k with _ => _ end] =>
        let H := fresh "Hlook" in destruct (m !! k) eqn:H
    | |- context [if eq_str ?t ?s then _ else _] =>
        let H := fresh "Htag" in
        destruct (eq_str t s) eqn:H; [apply eq_str_true in H; subst|]
    | |- context [if truthy ?v then _ else _] =>
        let H := fresh "Htruth" in destruct (truthy v) eqn:H
    end.

(** X3.  Which reply gives which response.  [Value c] comes only from
    an [ExecCaptureResponse] whose [success] is truthy, with [c] its
    content; [Stream] only from an [ExecStreamResponse] whose [success]
    is truthy, whether or not it has a content; [ErrorMessage e] only
    from a reply of one of the two tags whose [success] is falsy, with
    [e] its content. *)
Theorem response_from_reply_inversion (reply : gmap string json) :
  (forall c,
      _response_from_reply reply = inr (Value c) <->
      reply !! "tag" = Some (JStr "ExecCaptureResponse")
      /\ (exists s, reply !! "success" = Some s /\ truthy s = true)
      /\ reply !! "content" = Some c)
  /\ (_response_from_reply reply = inr Stream <->
      reply !! "tag" = Some (JStr "ExecStreamResponse")
      /\ (exists s, reply !! "success" = Some s /\ truthy s = true))
  /\ (forall e,
      _response_from_reply reply = inr (ErrorMessage e) <->
      (reply !! "tag" = Some (JStr "ExecCaptureResponse")
       \/ reply !! "tag" = Some (JStr "ExecStreamResponse"))
      /\ (exists s, reply !! "success" = Some s /\ truthy s = false)
      /\ reply !! "content" = Some e).
Proof.
  unfold _response_from_reply, getitem.
  split; [intros c; split | split; [split | intros e; split]].
  - case_reply; intros H; simplify_eq; eauto.
  - intros (-> & (s & -> & Hs) & ->). simpl. by rewrite Hs.
  - case_reply; intros H; simplify_eq; eauto.
  - intros (-> & (s & -> & Hs)). simpl. by rewrite Hs.
  - case_reply; intros H; simplify_eq; eauto 10.
  - intros ([-> | ->] & (s & -> & Hs) & ->); simpl; by rewrite Hs.
Qed.

Lemma response_from_reply_inversion_witness :
  _response_from_reply
    (request "ExecStreamResponse" [("success"%string, JNum 1)])
  = inr Stream.
Proof.
  apply (proj2 (proj1 (proj2 (response_from_reply_inversion
    (request "ExecStreamResponse" [("success"%string, JNum 1)]))))).
  split; [reflexivity|]. exists (JNum 1). by split.
Defined.

(** X4.  What [_response_from_reply] raises on an incomplete reply:
    [KeyError] for the first field it reads and does not find, in the
    order [tag], [success], [content]; the content is not asked of a
    successful [ExecStreamResponse].  It raises nothing but [KeyError]
    and [ValueError]. *)
Theorem response_from_reply_errors (reply : gmap string json) :
  (reply !! "tag" = None ->
     _response_from_reply reply = inl (KeyError "tag"))
  /\ (reply !! "tag" = Some (JStr "ExecCaptureResponse")
      \/ reply !! "tag" = Some (JStr "ExecStreamResponse") ->
      reply !! "success" = None ->
      _response_from_reply reply = inl (KeyError "success"))
  /\ (forall s,
        reply !! "tag" = Some (JStr "ExecCaptureResponse")
        \/ (reply !! "tag" = Some (JStr "ExecStreamResponse")
            /\ truthy s = false) ->
        reply !! "success" = Some s ->
        reply !! "content" = None ->
        _response_from_reply reply = inl (KeyError "content"))
  /\ (forall e,
        _response_from_reply reply = inl e ->
        (exists key, e = KeyError key) \/ (exists what, e = ValueError what)).
Proof.
  unfold _response_from_reply, getitem.
  split; [|split; [|split]].
  - by intros ->.
  - by intros [-> | ->] ->.
  - intros s [-> | [-> Hs]] -> ->; simpl; [done | by rewrite Hs].
  - intros e. case_reply; intros H; simplify_eq; eauto.
Qed.

Lemma response_from_reply_errors_witness :
  _response_from_reply
    (request "ExecStreamResponse" [("success"%string, JBool false)])
  = inl (KeyError "content").
Proof.
  apply (proj1 (proj2 (proj2 (response_from_reply_errors
    (request "ExecStreamResponse" [("success"%string, JBool false)]))))
    (JBool false)); [right; by split | reflexivity | reflexivity].
Defined.

(** ** How calls compose *)

Section Respects.
Context (R : call_relation).
Hypothesis R_refl : forall tr self, R tr self false tr self.
Hypothesis R_trans : forall tr self tr1 self1 b tr2 self2,
  R tr self false tr1 self1 -> R tr1 self1 b tr2 self2 -> R tr self b tr2 self2.

Lemma respects_ret {A} (a : A) : respects R (ret a).
Proof. intros tr self o tr' self' [= <- <- <-]. apply R_refl. Qed.

Lemma respects_lift {A} (r : exn + A) :
  r <> inl KeyboardInterrupt -> respects R (lift r).
Proof.
  intros Hr tr self o tr' self'. rewrite lift_eq. intros [= <- <- <-].
  destruct r as [[]|]; try done; apply R_refl.
Qed.

Lemma respects_bind {A B} (c : call A) (k : A -> call B) :
  respects R c -> (forall a, respects R (k a)) -> respects R (bind c k).
Proof.
  intros Hc Hk tr self o tr' self'. unfold bind.
  destruct (c tr self) as [[[a|e|] tr1] self1] eqn:Hrun; intros Hres.
  - eapply R_trans; [apply (Hc _ _ _ _ _ Hrun) | apply (Hk _ _ _ _ _ _ Hres)].
  - simplify_eq. apply (Hc _ _ _ _ _ Hrun).
  - simplify_eq. apply (Hc _ _ _ _ _ Hrun).
Qed.

Lemma respects_forget {A} (c : call A) : respects R c -> respects R (forget c).
Proof.
  intros Hc tr self o tr' self'. unfold forget.
  destruct (c tr self) as [[[a|e|] tr1] self1] eqn:Hrun;
    intros [= <- <- <-]; apply (Hc _ _ _ _ _ Hrun).
Qed.

Lemma respects_try {A} (body handler : call A) :
  respects R body ->
  (forall tr self tr1 self1 o tr2 self2,
      R tr self true tr1 self1 -> handler tr1 self1 = (o, tr2, self2) ->
      R tr self (is_KeyboardInterrupt o) tr2 self2) ->
  respects R (try_except_KeyboardInterrupt body handler).
Proof.
  intros Hb Hh tr self o tr' self'. unfold try_except_KeyboardInterrupt.
  destruct (body tr self) as [[[a|e|] tr1] self1] eqn:Hrun.
  - intros [= <- <- <-]. apply (Hb _ _ _ _ _ Hrun).
  - destruct e; try (intros [= <- <- <-]; apply (Hb _ _ _ _ _ Hrun)).
    apply Hh. apply (Hb _ _ _ _ _ Hrun).
  - intros [= <- <- <-]. apply (Hb _ _ _ _ _ Hrun).
Qed.

End Respects.

Lemma getitem_not_interrupt reply key :
  getitem reply key <> inl KeyboardInterrupt.
Proof. unfold getitem. by destruct (reply !! key). Qed.

(** *** The command channel *)

Lemma same_comm_refl tr self : same_comm tr self false tr self.
Proof. done. Qed.

Lemma same_comm_trans tr self tr1 self1 (b : bool) tr2 self2 :
  same_comm tr self false tr1 self1 -> same_comm tr1 self1 b tr2 self2 ->
  same_comm tr self b tr2 self2.
Proof. unfold same_comm. congruence. Qed.

Lemma await_confirmation_same_comm {A} : respects same_comm (@await_confirmation A).
Proof.
  intros tr. induction tr as [|e tr IH]; intros self o tr' self'; simpl.
  - by intros [= <- <- <-].
  - destruct e; try (intros H; by apply IH in H); by intros [= <- <- <-].
Qed.

Lemma await_reply_same_comm : respects same_comm _await_reply.
Proof.
  intros tr. induction tr as [|e tr IH]; intros self o tr' self'; simpl.
  - by intros [= <- <- <-].
  - destruct e; try (intros H; by apply IH in H).
    + by intros [= <- <- <-].
    + intros H. by apply await_confirmation_same_comm in H.
Qed.

Lemma await_sync_same_comm v : respects same_comm (await_sync v).
Proof.
  intros tr. induction tr as [|e tr IH]; intros self o tr' self'; simpl;
    destruct (ge_json _ v) as [?|[]]; try (intros [= <- <- <-]; done).
  destruct e; try (intros H; by apply IH in H). by intros [= <- <- <-].
Qed.

Lemma send_interrupt_same_comm : respects same_comm (modify send_interrupt).
Proof. by intros tr self o tr' self' [= <- <- <-]. Qed.

(** *** Calls that are not cancelled *)

Lemma quiet_refl tr self : quiet tr self false tr self.
Proof. done. Qed.

Lemma quiet_trans tr self tr1 self1 (b : bool) tr2 self2 :
  quiet tr self false tr1 self1 -> quiet tr1 self1 b tr2 self2 ->
  quiet tr self b tr2 self2.
Proof.
  unfold quiet. intros H1 H2 Hq.
  destruct (H1 Hq) as (_ & Hq1 & Hc1 & Hp1).
  destruct (H2 Hq1) as (Hb & Hq2 & Hc2 & Hp2).
  repeat split; congruence.
Qed.

Lemma quiet_caught tr self tr1 self1 (b : bool) tr2 self2 :
  quiet tr self true tr1 self1 -> quiet tr self b tr2 self2.
Proof. unfold quiet. intros H Hq. by destruct (H Hq) as [? _]. Qed.

Lemma await_send_quiet msg : respects quiet (_await_send msg).
Proof.
  intros tr. induction tr as [|e tr IH]; intros self o tr' self'; simpl.
  - by intros [= <- <- <-].
  - unfold quiet in *. simpl.
    destruct e; simpl; try (intros H Hq; by apply (IH _ _ _ _ H));
      try (intros [= <- <- <-]; done).
Qed.

Lemma await_reply_quiet : respects quiet _await_reply.
Proof.
  intros tr. induction tr as [|e tr IH]; intros self o tr' self'; simpl.
  - by intros [= <- <- <-].
  - unfold quiet in *. simpl.
    destruct e; simpl; try (intros H Hq; by apply (IH _ _ _ _ H));
      try (intros [= <- <- <-]; done).
    by intros _ ?.
Qed.

Lemma await_sync_quiet v : respects quiet (await_sync v).
Proof.
  assert (forall a e0, ge_json a v = inl e0 -> e0 = TypeError) as Hge.
  { intros a e0. unfold ge_json. destruct v; by intros [= <-]. }
  intros tr. induction tr as [|e tr IH]; intros self o tr' self'; simpl;
    (destruct (ge_json _ v) as [e0|[]] eqn:Hv;
     [apply Hge in Hv as ->|..]); try (intros [= <- <- <-]; done).
  unfold quiet in *. simpl.
  destruct e; simpl; try (intros H Hq; by apply (IH _ _ _ _ H)).
  by intros _ ?.
Qed.

(** Every method is [_await_send] of its request followed by a part
    that sends nothing on the command channel and, uncancelled, nothing
    on the control channel. *)
Ltac respects_steps refl trans :=
  repeat first
    [ apply (respects_forget _)
    | apply (respects_bind _ trans); [|intros ?]
    | apply (respects_ret _ refl)
    | apply (respects_lift _ refl); [apply response_not_interrupt]
    | apply (respects_lift _ refl); [apply getitem_not_interrupt]
    | match goal with
      | |- respects _ (if ?b then _ else _) => destruct b
      end ].

Lemma invoke_split (m : method) :
  exists rest : call unit,
    (forall tr self,
        invoke m tr self = bind (_await_send (request_of m)) (fun _ => rest) tr self)
    /\ respects same_comm rest
    /\ respects quiet rest.
Proof.
  destruct m as [code|code|identifier|identifier show|line|identifier].
  - exists (forget (try_except_KeyboardInterrupt
                      (bind _await_reply (fun reply => lift (_response_from_reply reply)))
                      (bind (modify send_interrupt) (fun _ => raise KeyboardInterrupt)))).
    split; [|split].
    + intros tr self. unfold invoke, forget, execute, mbind, call_bind, bind.
      simpl. by destruct (_await_send _ tr self) as [[[[]|e|] tr1] self1].
    + apply (respects_forget _), (respects_try _).
      * respects_steps same_comm_refl same_comm_trans.
        apply await_reply_same_comm.
      * intros tr self tr1 self1 o tr2 self2 H [= <- <- <-]. apply H.
    + apply (respects_forget _), (respects_try _).
      * respects_steps quiet_refl quiet_trans. apply await_reply_quiet.
      * intros tr self tr1 self1 o tr2 self2 H _. by eapply quiet_caught.
  - exists (forget
              (bind _await_reply (fun message =>
               bind (lift (getitem message "success")) (fun success =>
               bind (if truthy success then
                       try_except_KeyboardInterrupt
                         (bind (lift (getitem message "syncVal")) await_sync)
                         (modify send_interrupt)
                     else ret tt)
                    (fun _ => lift (_response_from_reply message)))))).
    split; [|split].
    + intros tr self. unfold invoke, forget, exec_stream, mbind, call_bind.
      unfold bind at 1 6. simpl.
      by destruct (_await_send _ tr self) as [[[[]|e|] tr1] self1].
    + respects_steps same_comm_refl same_comm_trans.
      * apply await_reply_same_comm.
      * apply (respects_try _).
        -- respects_steps same_comm_refl same_comm_trans.
           apply await_sync_same_comm.
        -- intros tr self tr1 self1 o tr2 self2 H [= <- <- <-]. apply H.
    + respects_steps quiet_refl quiet_trans.
      * apply await_reply_quiet.
      * apply (respects_try _).
        -- respects_steps quiet_refl quiet_trans. apply await_sync_quiet.
        -- intros tr self tr1 self1 o tr2 self2 H _. by eapply quiet_caught.
  - exists (forget (bind _await_reply
                      (fun reply => lift (_response_from_reply reply)))).
    split; [|split].
    + intros tr self. unfold invoke, forget, find_doc, mbind, call_bind.
      unfold bind at 1 3. simpl.
      by destruct (_await_send _ tr self) as [[[[]|e|] tr1] self1].
    + respects_steps same_comm_refl same_comm_trans. apply await_reply_same_comm.
    + respects_steps quiet_refl quiet_trans. apply await_reply_quiet.
  - exists (forget (bind _await_reply
                      (fun reply => lift (_response_from_reply reply)))).
    split; [|split].
    + intros tr self. unfold invoke, forget, get_type, mbind, call_bind.
      unfold bind at 1 3. simpl.
      by destruct (_await_send _ tr self) as [[[[]|e|] tr1] self1].
    + respects_steps same_comm_refl same_comm_trans. apply await_reply_same_comm.
    + respects_steps quiet_refl quiet_trans. apply await_reply_quiet.
  - exists (forget
              (bind _await_reply (fun reply =>
               if match reply !! "success" with
                  | Some v => truthy v | None => false end
               then
                 bind (lift (getitem reply "startChars")) (fun startChars =>
                 bind (lift (getitem reply "candidates")) (fun candidates =>
                 ret (Some (startChars, candidates))))
               else ret None))).
    split; [|split].
    + intros tr self. unfold invoke, forget, get_completions, mbind, call_bind.
      unfold bind at 1 5. simpl.
      by destruct (_await_send _ tr self) as [[[[]|e|] tr1] self1].
    + respects_steps same_comm_refl same_comm_trans. apply await_reply_same_comm.
    + respects_steps quiet_refl quiet_trans. apply await_reply_quiet.
  - exists (forget (bind _await_reply
                      (fun reply => lift (_response_from_reply reply)))).
    split; [|split].
    + intros tr self. unfold invoke, forget, find_source, mbind, call_bind.
      unfold bind at 1 3. simpl.
      by destruct (_await_send _ tr self) as [[[[]|e|] tr1] self1].
    + respects_steps same_comm_refl same_comm_trans. apply await_reply_same_comm.
    + respects_steps quiet_refl quiet_trans. apply await_reply_quiet.
Qed.

(** ** Requests and interrupts of whole calls *)

Lemma await_send_comm msg tr : forall self o tr' self',
  _await_send msg tr self = (o, tr', self') ->
  comm_sent self'
  = comm_sent self ++ match o with Returned _ => [msg] | _ => [] end.
Proof.
  induction tr as [|e tr IH]; intros self o tr' self'; simpl.
  - intros [= <- <- <-]. by rewrite app_nil_r.
  - destruct e; try (intros H; by apply IH in H);
      intros [= <- <- <-]; simpl; by rewrite ?app_nil_r.
Qed.

Lemma await_send_cancelled msg pre tr self :
  forallb send_waits pre = true ->
  _await_send msg (pre ++ Cancel :: tr) self
  = (Raised KeyboardInterrupt, tr, absorb pre self).
Proof.
  revert self. induction pre as [|e pre IH]; intros self H; simpl in *; [done|].
  apply andb_true_iff in H as [He H].
  destruct e; simpl in *; try done; by apply IH.
Qed.

Lemma absorb_comm_sent tr : forall self,
  comm_sent (absorb tr self) = comm_sent self.
Proof.
  induction tr as [|e tr IH]; intros self; [done|].
  unfold absorb in *. simpl. rewrite IH. by destruct e.
Qed.

Lemma absorb_printed tr : forall self, printed (absorb tr self) = printed self.
Proof.
  induction tr as [|e tr IH]; intros self; [done|].
  unfold absorb in *. simpl. rewrite IH. by destruct e.
Qed.

Lemma confirming_comm_sent mid : forall self,
  comm_sent (confirming mid self) = comm_sent self.
Proof.
  induction mid as [|e mid IH]; intros self; [done|].
  unfold confirming in *. simpl. rewrite IH. by destruct e.
Qed.

Lemma confirming_printed mid : forall self,
  printed (confirming mid self)
  = printed self ++ replicate (count_cancel mid) "Re-sending interrupt"%string.
Proof.
  induction mid as [|e mid IH]; intros self; simpl.
  - by rewrite app_nil_r.
  - unfold confirming in *. simpl. rewrite IH.
    destruct e; simpl; try done. by rewrite <- app_assoc.
Qed.

(** X5.  No call sends more than its one request: when a method ends,
    in whatever way, the command channel has either seen nothing new or
    exactly the request of that method; it has seen the request as soon
    as the socket was writable before any cancellation, and always when
    the method returns. *)
Theorem one_request_per_call
    (m : method) (tr tr' : list event) (self self' : Engine) (o : outcome unit) :
  invoke m tr self = (o, tr', self') ->
  (comm_sent self' = comm_sent self
   \/ comm_sent self' = comm_sent self ++ [request_of m])
  /\ (forall pre rest,
        tr = pre ++ Writable :: rest -> forallb send_waits pre = true ->
        comm_sent self' = comm_sent self ++ [request_of m])
  /\ (o = Returned tt -> comm_sent self' = comm_sent self ++ [request_of m]).
Proof.
  destruct (invoke_split m) as (rest & Heq & Hcomm & _).
  rewrite Heq. unfold bind.
  destruct (_await_send (request_of m) tr self) as [[o1 tr1] self1] eqn:Hs.
  pose proof (await_send_comm _ _ _ _ _ _ Hs) as Hsent.
  intros Hrun. split; [|split].
  - destruct o1 as [[]|e|]; simplify_eq.
    + right. by rewrite (Hcomm _ _ _ _ _ Hrun).
    + left. by rewrite Hsent, app_nil_r.
    + left. by rewrite Hsent, app_nil_r.
  - intros pre rest' -> Hpre.
    rewrite (await_send_returns _ _ _ _ Hpre) in Hs. simplify_eq.
    by rewrite (Hcomm _ _ _ _ _ Hrun).
  - intros ->. destruct o1 as [[]|e|]; simplify_eq.
    by rewrite (Hcomm _ _ _ _ _ Hrun).
Qed.

Lemma one_request_per_call_witness :
  comm_sent
    (invoke (GetType "map" true)
       [Timeout; Writable; Cancel; Cancel; Reply ack_reply] Engine_init).2
  = comm_sent Engine_init ++ [request_of (GetType "map" true)].
Proof.
  apply (proj1 (proj2 (one_request_per_call (GetType "map" true)
           [Timeout; Writable; Cancel; Cancel; Reply ack_reply] []
           Engine_init _ (Raised KeyboardInterrupt) eq_refl))
           [Timeout] [Cancel; Cancel; Reply ack_reply] eq_refl eq_refl).
Defined.

(** X6.  A call during which no cancellation is delivered never ends
    in [KeyboardInterrupt], sends nothing on the control channel and
    prints nothing, however it ends. *)
Theorem no_cancel_no_interrupt
    (m : method) (tr tr' : list event) (self self' : Engine) (o : outcome unit) :
  forallb not_cancel tr = true ->
  invoke m tr self = (o, tr', self') ->
  o <> Raised KeyboardInterrupt
  /\ ctrl_sent self' = ctrl_sent self
  /\ printed self' = printed self.
Proof.
  intros Hq. destruct (invoke_split m) as (rest & Heq & _ & Hrest).
  rewrite Heq. intros Hrun.
  assert (respects quiet (bind (_await_send (request_of m)) (fun _ => rest)))
    as Hall.
  { apply (respects_bind _ quiet_trans); [apply await_send_quiet | done]. }
  destruct (Hall _ _ _ _ _ Hrun Hq) as (Hb & _ & Hc & Hp).
  repeat split; try done. intros ->. done.
Qed.

Lemma no_cancel_no_interrupt_witness :
  ctrl_sent
    (invoke (ExecStream "main")
       [Writable; Reply (stream_reply 2); StreamMessage (marker "2")]
       Engine_init).2
  = ctrl_sent Engine_init.
Proof.
  apply (proj1 (proj2 (no_cancel_no_interrupt (ExecStream "main")
           [Writable; Reply (stream_reply 2); StreamMessage (marker "2")] []
           Engine_init _ (Returned tt) eq_refl eq_refl))).
Defined.

(** X7.  A cancellation that arrives before the request has gone out
    ends any method with [KeyboardInterrupt] at once: no request and no
    interrupt is sent, [execute] included, whose handler covers the
    reply wait only. *)
Theorem cancel_before_send
    (m : method) (pre tr : list event) (self : Engine) :
  forallb send_waits pre = true ->
  invoke m (pre ++ Cancel :: tr) self
  = (Raised KeyboardInterrupt, tr, absorb pre self)
  /\ comm_sent (absorb pre self) = comm_sent self
  /\ ctrl_sent (absorb pre self) = ctrl_sent self.
Proof.
  intros Hpre. destruct (invoke_split m) as (rest & Heq & _ & _).
  rewrite Heq. unfold bind. rewrite (await_send_cancelled _ _ _ _ Hpre).
  by rewrite absorb_comm_sent, absorb_ctrl_sent.
Qed.

Lemma cancel_before_send_witness :
  invoke (Execute "1+1") ([Timeout; StreamMessage "1:x"] ++ Cancel :: [Writable])
    Engine_init
  = (Raised KeyboardInterrupt, [Writable],
     absorb [Timeout; StreamMessage "1:x"] Engine_init).
Proof.
  apply (cancel_before_send (Execute "1+1") [Timeout; StreamMessage "1:x"]
           [Writable] Engine_init eq_refl).
Defined.

(** A call cancelled during its reply wait, for every method. *)
Lemma invoke_cancelled m pre0 pre mid ack tr self :
  forallb send_waits pre0 = true ->
  forallb reply_waits pre = true ->
  forallb (fun e => negb (is_reply e)) mid = true ->
  invoke m (pre0 ++ Writable :: pre ++ Cancel :: mid ++ Reply ack :: tr) self
  = (Raised KeyboardInterrupt, tr, after_cancel m pre0 pre mid self).
Proof.
  intros H0 Hpre Hmid.
  destruct m; unfold invoke, forget, after_cancel, request_of;
    unfold execute, exec_stream, find_doc, get_type, get_completions,
      find_source, mbind, call_bind, bind, try_except_KeyboardInterrupt;
    rewrite (await_send_returns _ _ _ _ H0);
    rewrite (await_reply_cancelled _ _ _ Hpre);
    by rewrite (await_confirmation_raises _ _ _ _ Hmid).
Qed.

Lemma after_cancel_fields m pre0 pre mid self :
  ctrl_sent (after_cancel m pre0 pre mid self)
  = ctrl_sent self
    ++ replicate (S (count_cancel mid) + handler_interrupts m) "Interrupt"%string
  /\ printed (after_cancel m pre0 pre mid self)
     = printed self ++ replicate (count_cancel mid) "Re-sending interrupt"%string
  /\ comm_sent (after_cancel m pre0 pre mid self)
     = comm_sent self ++ [request_of m].
Proof.
  assert (forall s : Engine,
    ctrl_sent (confirming mid (send_interrupt s))
    = ctrl_sent s ++ replicate (S (count_cancel mid)) "Interrupt"%string) as Hc.
  { intros s. rewrite confirming_ctrl_sent. simpl. by rewrite <- app_assoc. }
  unfold after_cancel.
  destruct m; simpl; rewrite ?Hc, ?confirming_printed, ?confirming_comm_sent;
    simpl; rewrite ?absorb_ctrl_sent, ?absorb_printed, ?absorb_comm_sent;
    simpl; rewrite ?absorb_ctrl_sent, ?absorb_printed, ?absorb_comm_sent;
    rewrite ?Nat.add_0_r; repeat split; try done.
  rewrite <- app_assoc. f_equal.
  rewrite Nat.add_1_r. simpl. f_equal.
  change ("Interrupt"%string :: replicate (count_cancel mid) "Interrupt"%string)
    with (replicate (S (count_cancel mid)) "Interrupt"%string).
  by rewrite replicate_S_end.
Qed.

(** X8.  A call cancelled during its reply wait ends in
    [KeyboardInterrupt] only when the acknowledgment has been consumed.
    By then the control channel has received one interrupt for the
    first cancellation, one more for every further cancellation, each
    announced by a printed line, and, for [execute] only, one more from
    its own handler. *)
Theorem cancelled_call_interrupts
    (m : method) (pre0 pre mid tr : list event)
    (ack : gmap string json) (self : Engine) :
  forallb send_waits pre0 = true ->
  forallb reply_waits pre = true ->
  forallb (fun e => negb (is_reply e)) mid = true ->
  exists self',
    invoke m (pre0 ++ Writable :: pre ++ Cancel :: mid ++ Reply ack :: tr) self
    = (Raised KeyboardInterrupt, tr, self')
    /\ ctrl_sent self'
       = ctrl_sent self
         ++ replicate (S (count_cancel mid) + handler_interrupts m)
              "Interrupt"%string
    /\ printed self'
       = printed self
         ++ replicate (count_cancel mid) "Re-sending interrupt"%string.
Proof.
  intros H0 Hpre Hmid. exists (after_cancel m pre0 pre mid self).
  split; [by apply invoke_cancelled|].
  destruct (after_cancel_fields m pre0 pre mid self) as (Hc & Hp & _).
  by split.
Qed.

Lemma cancelled_call_interrupts_witness :
  exists self',
    invoke (FindDoc "map")
      ([] ++ Writable :: [Timeout] ++ Cancel :: [Cancel; Timeout; Cancel]
          ++ Reply ack_reply :: [])
      Engine_init
    = (Raised KeyboardInterrupt, [], self')
    /\ ctrl_sent self'
       = ctrl_sent Engine_init
         ++ replicate (S (count_cancel [Cancel; Timeout; Cancel])
                       + handler_interrupts (FindDoc "map")) "Interrupt"%string
    /\ printed self'
       = printed Engine_init
         ++ replicate (count_cancel [Cancel; Timeout; Cancel])
              "Re-sending interrupt"%string.
Proof.
  apply (cancelled_call_interrupts (FindDoc "map") [] [Timeout]
           [Cancel; Timeout; Cancel] [] ack_reply Engine_init
           eq_refl eq_refl eq_refl).
Defined.

(** X9.  The acknowledgment of a cancelled call is not taken for the
    reply of the next one: when [execute] follows a call that was
    cancelled during its reply wait, it is answered by the reply that
    comes after the acknowledgment, and the command channel has seen
    the two requests, one after the other. *)
Theorem call_after_cancelled_call
    (m : method) (code : string)
    (pre0 pre mid pre0' pre' rest : list event)
    (ack reply : gmap string json) (self : Engine) :
  forallb send_waits pre0 = true ->
  forallb reply_waits pre = true ->
  forallb (fun e => negb (is_reply e)) mid = true ->
  forallb send_waits pre0' = true ->
  forallb reply_waits pre' = true ->
  let second := pre0' ++ Writable :: pre' ++ Reply reply :: rest in
  exists self1 self2,
    invoke m (pre0 ++ Writable :: pre ++ Cancel :: mid ++ Reply ack :: second) self
    = (Raised KeyboardInterrupt, second, self1)
    /\ execute code second self1
       = (of_result (_response_from_reply reply), rest, self2)
    /\ comm_sent self2
       = comm_sent self ++ [request_of m; request_of (Execute code)].
Proof.
  intros H0 Hpre Hmid H0' Hpre' second.
  exists (after_cancel m pre0 pre mid self). eexists.
  split; [by apply invoke_cancelled|]. split.
  - subst second.
    rewrite (execute_after_send _ _ _ _ _ (await_send_returns _ _ _ _ H0')).
    by rewrite (await_reply_returns _ _ _ _ Hpre').
  - rewrite absorb_comm_sent. simpl. rewrite absorb_comm_sent.
    destruct (after_cancel_fields m pre0 pre mid self) as (_ & _ & ->).
    by rewrite <- app_assoc.
Qed.

Lemma call_after_cancelled_call_witness :
  exists self1 self2,
    invoke (ExecStream "main")
      ([] ++ Writable :: [] ++ Cancel :: [Timeout] ++ Reply ack_reply
          :: ([] ++ Writable :: [Timeout]
                ++ Reply (request "ExecCaptureResponse"
                            [("success"%string, JBool true);
                             ("content"%string, JStr "2")]) :: []))
      Engine_init
    = (Raised KeyboardInterrupt,
       [] ++ Writable :: [Timeout]
          ++ Reply (request "ExecCaptureResponse"
                      [("success"%string, JBool true);
                       ("content"%string, JStr "2")]) :: [],
       self1)
    /\ execute "1+1"
         ([] ++ Writable :: [Timeout]
             ++ Reply (request "ExecCaptureResponse"
                         [("success"%string, JBool true);
                          ("content"%string, JStr "2")]) :: [])
         self1
       = (of_result
            (_response_from_reply
               (request "ExecCaptureResponse"
                  [("success"%string, JBool true);
                   ("content"%string, JStr "2")])), [], self2)
    /\ comm_sent self2
       = comm_sent Engine_init
         ++ [request_of (ExecStream "main"); request_of (Execute "1+1")].
Proof.
  apply (call_after_cancelled_call (ExecStream "main") "1+1"
           [] [] [Timeout] [] [Timeout] []
           ack_reply
           (request "ExecCaptureResponse"
              [("success"%string, JBool true); ("content"%string, JStr "2")])
           Engine_init eq_refl eq_refl eq_refl eq_refl eq_refl).
Defined.

(** ** [exec_stream] and the wait for the marker *)

Lemma await_sync_blocked k tr : forall self,
  forallb not_cancel tr = true ->
  stays_below k tr self = true ->
  await_sync (JNum k) tr self = (Blocked, [], absorb tr self).
Proof.
  induction tr as [|e tr IH]; intros self Hq Hb; simpl in *;
    apply andb_true_iff in Hb as [Hlt Hb]; apply Z.ltb_lt in Hlt;
    fold (cursor self);
    (destruct (Z.leb_spec k (cursor self)) as [Hle|_]; [lia|]); [done|].
  apply andb_true_iff in Hq as [He Hq].
  destruct e; try done; by apply IH.
Qed.

Lemma listen_dead message self :
  died (iopub_thread self) <> None -> listen message self = self.
Proof.
  intros Hd. unfold listen. rewrite deliver_dead by done. by destruct self.
Qed.

Lemma absorb_dead tr : forall self,
  died (iopub_thread self) <> None -> absorb tr self = self.
Proof.
  induction tr as [|e tr IH]; intros self Hd; [done|].
  unfold absorb in *. simpl.
  destruct e; simpl; rewrite ?listen_dead by done; by apply IH.
Qed.

Lemma stays_below_dead k tr : forall self,
  died (iopub_thread self) <> None -> cursor self < k ->
  stays_below k tr self = true.
Proof.
  induction tr as [|e tr IH]; intros self Hd Hk; simpl;
    apply andb_true_iff; (split; [by apply Z.ltb_lt|]); [done|].
  destruct e; simpl; rewrite ?listen_dead by done; by apply IH.
Qed.

(** X10.  [exec_stream] has no timeout of its own: after a reply that
    reports success with the integer target [k], as long as the cursor
    stays below [k] and no cancellation is delivered, the call is still
    waiting, whatever else happens, and has sent no interrupt. *)
Theorem exec_stream_waits_without_marker
    (code : string) (tr tr1 tr2 : list event) (self self1 self2 : Engine)
    (message : gmap string json) (s : json) (k : Z) :
  _await_send (request "RequestExecStream" [("content"%string, JStr code)]) tr self
  = (Returned tt, tr1, self1) ->
  _await_reply tr1 self1 = (Returned message, tr2, self2) ->
  message !! "success" = Some s -> truthy s = true ->
  message !! "syncVal" = Some (JNum k) ->
  forallb not_cancel tr2 = true ->
  stays_below k tr2 self2 = true ->
  exec_stream code tr self = (Blocked, [], absorb tr2 self2)
  /\ ctrl_sent (absorb tr2 self2) = ctrl_sent self2.
Proof.
  intros Hs Hr Hsucc Ht Hsync Hq Hb.
  rewrite (exec_stream_after_reply _ _ _ _ _ _ _ _ Hs Hr), Hsucc, Ht, Hsync.
  rewrite (await_sync_blocked _ _ _ Hq Hb). by rewrite absorb_ctrl_sent.
Qed.

Lemma exec_stream_waits_without_marker_witness :
  exec_stream "main"
    [Writable; Reply (stream_reply 5); StreamMessage "1:tick";
     StreamMessage (marker "4"); Timeout]
    Engine_init
  = (Blocked, [],
     absorb [StreamMessage "1:tick"; StreamMessage (marker "4"); Timeout]
       (comm_send (request "RequestExecStream"
                     [("content"%string, JStr "main")]) Engine_init)).
Proof.
  set (sent := comm_send (request "RequestExecStream"
                            [("content"%string, JStr "main")]) Engine_init).
  apply (proj1 (exec_stream_waits_without_marker "main"
           [Writable; Reply (stream_reply 5); StreamMessage "1:tick";
            StreamMessage (marker "4"); Timeout]
           [Reply (stream_reply 5); StreamMessage "1:tick";
            StreamMessage (marker "4"); Timeout]
           [StreamMessage "1:tick"; StreamMessage (marker "4"); Timeout]
           Engine_init sent sent (stream_reply 5) (JBool true) 5
           eq_refl eq_refl eq_refl eq_refl eq_refl eq_refl eq_refl)).
Defined.

(** X11.  Once the listener has died, an [exec_stream] whose target is
    above the cursor can only be ended by a cancellation: markers that
    arrive are not read any more, so without a cancellation the call
    waits on, with the engine unchanged. *)
Theorem exec_stream_waits_on_dead_listener
    (code : string) (tr tr1 tr2 : list event) (self self1 self2 : Engine)
    (message : gmap string json) (s : json) (k : Z) :
  _await_send (request "RequestExecStream" [("content"%string, JStr code)]) tr self
  = (Returned tt, tr1, self1) ->
  _await_reply tr1 self1 = (Returned message, tr2, self2) ->
  message !! "success" = Some s -> truthy s = true ->
  message !! "syncVal" = Some (JNum k) ->
  died (iopub_thread self2) <> None ->
  cursor self2 < k ->
  forallb not_cancel tr2 = true ->
  exec_stream code tr self = (Blocked, [], self2).
Proof.
  intros Hs Hr Hsucc Ht Hsync Hd Hk Hq.
  rewrite (exec_stream_after_reply _ _ _ _ _ _ _ _ Hs Hr), Hsucc, Ht, Hsync.
  rewrite (await_sync_blocked _ _ _ Hq (stays_below_dead _ _ _ Hd Hk)).
  by rewrite absorb_dead.
Qed.

Lemma exec_stream_waits_on_dead_listener_witness :
  exec_stream "main"
    [StreamMessage "x"; Writable; Reply (stream_reply 1);
     StreamMessage (marker "1"); StreamMessage (marker "2")]
    Engine_init
  = (Blocked, [],
     comm_send (request "RequestExecStream" [("content"%string, JStr "main")])
       (listen "x" Engine_init)).
Proof.
  set (sent := comm_send (request "RequestExecStream"
                            [("content"%string, JStr "main")])
                 (listen "x" Engine_init)).
  apply (exec_stream_waits_on_dead_listener "main"
           [StreamMessage "x"; Writable; Reply (stream_reply 1);
            StreamMessage (marker "1"); StreamMessage (marker "2")]
           [Reply (stream_reply 1);
            StreamMessage (marker "1"); StreamMessage (marker "2")]
           [StreamMessage (marker "1"); StreamMessage (marker "2")]
           Engine_init sent sent (stream_reply 1) (JBool true) 1
           eq_refl eq_refl eq_refl eq_refl eq_refl);
    [discriminate | reflexivity | reflexivity].
Defined.

(** X12.  A reply that reports success without a usable target makes
    [exec_stream] raise instead of returning [Stream]: [KeyError] when
    [syncVal] is missing, [TypeError] when it is null, text, a list or
    an object.  Neither is caught by the handler around the wait, so no
    interrupt is sent and no event is consumed. *)
Theorem exec_stream_bad_sync_token
    (code : string) (tr tr1 tr2 : list event) (self self1 self2 : Engine)
    (message : gmap string json) (s : json) :
  _await_send (request "RequestExecStream" [("content"%string, JStr code)]) tr self
  = (Returned tt, tr1, self1) ->
  _await_reply tr1 self1 = (Returned message, tr2, self2) ->
  message !! "success" = Some s -> truthy s = true ->
  (message !! "syncVal" = None ->
     exec_stream code tr self = (Raised (KeyError "syncVal"), tr2, self2))
  /\ (forall v,
        message !! "syncVal" = Some v ->
        (forall n, v <> JNum n) -> (forall b, v <> JBool b) ->
        exec_stream code tr self = (Raised TypeError, tr2, self2)).
Proof.
  intros Hs Hr Hsucc Ht.
  rewrite (exec_stream_after_reply _ _ _ _ _ _ _ _ Hs Hr), Hsucc, Ht.
  split; [by intros ->|].
  intros v -> Hn Hb.
  assert (forall tr0 self0,
    await_sync v tr0 self0 = (Raised TypeError, tr0, self0)) as ->; [|done].
  intros tr0 self0.
  destruct v; try (by destruct tr0); [by destruct (Hb b) | by destruct (Hn n)].
Qed.

Lemma exec_stream_bad_sync_token_witness :
  exec_stream "main"
    [Writable;
     Reply (request "ExecStreamResponse"
              [("success"%string, JBool true); ("syncVal"%string, JStr "5")]);
     StreamMessage (marker "5")]
    Engine_init
  = (Raised TypeError, [StreamMessage (marker "5")],
     comm_send (request "RequestExecStream" [("content"%string, JStr "main")])
       Engine_init).
Proof.
  set (sent := comm_send (request "RequestExecStream"
                            [("content"%string, JStr "main")]) Engine_init).
  set (reply := request "ExecStreamResponse"
                  [("success"%string, JBool true); ("syncVal"%string, JStr "5")]).
  apply (proj2 (exec_stream_bad_sync_token "main"
           [Writable; Reply reply; StreamMessage (marker "5")]
           [Reply reply; StreamMessage (marker "5")]
           [StreamMessage (marker "5")]
           Engine_init sent sent reply (JBool true)
           eq_refl eq_refl eq_refl eq_refl) (JStr "5") eq_refl);
    discriminate.
Defined.

(** X13.  [send_interrupt] and the listener together: after it, every
    stream message that reaches the listener before the next marker
    leaves the listener exactly as [interrupt] left it.  Nothing is
    printed, and a line with an unknown selector or an empty line, which
    would otherwise end the listener, is dropped like the rest. *)
Theorem late_output_dropped_after_interrupt
    (self : Engine) (late : list event) :
  forallb no_marker late = true ->
  iopub_thread (absorb late (send_interrupt self))
  = interrupt (iopub_thread self)
  /\ ctrl_sent (absorb late (send_interrupt self))
     = ctrl_sent self ++ ["Interrupt"%string].
Proof.
  intros Hlate. split; [|by rewrite absorb_ctrl_sent].
  assert (forall s : Engine,
    interrupted (iopub_thread s) = true ->
    iopub_thread (absorb late s) = iopub_thread s) as Hkeep; [|by apply Hkeep].
  induction late as [|e late IH]; intros s Hi; [done|].
  simpl in Hlate. apply andb_true_iff in Hlate as [He Hlate].
  unfold absorb in *. simpl.
  destruct e as [| |  |m|]; simpl; try by apply IH.
  simpl in He. destruct (Re.match_ SYNC_RE m) eqn:Hm; [done|].
  assert (deliver m (iopub_thread s) = iopub_thread s) as Hdrop.
  { unfold deliver. destruct (died (iopub_thread s)); [done|].
    by rewrite run_body_suppressed. }
  assert (listen m s = s) as ->; [|by apply IH].
  unfold listen. rewrite Hdrop. by destruct s.
Qed.

Lemma late_output_dropped_after_interrupt_witness :
  iopub_thread
    (absorb [StreamMessage "1:late"; Timeout; StreamMessage "9:bad";
             StreamMessage ""]
       (send_interrupt Engine_init))
  = interrupt (iopub_thread Engine_init).
Proof.
  apply (proj1 (late_output_dropped_after_interrupt Engine_init
           [StreamMessage "1:late"; Timeout; StreamMessage "9:bad";
            StreamMessage ""] eq_refl)).
Defined.

(** ** The remaining request methods *)

(** X14.  [get_completions] beyond the two plain cases: any truthy
    [success] counts, the two fields are returned as they are, whatever
    they are and whatever the tag of the reply; a missing [startChars]
    or [candidates] raises [KeyError], in that order; any falsy
    [success] gives [None]. *)
Theorem get_completions_fields
    (line : string) (tr tr1 tr2 : list event) (self self1 self2 : Engine)
    (reply : gmap string json) (s : json) :
  _await_send (request "RequestCompletion"
                 [("lineBeforeCursor"%string, JStr line)]) tr self
  = (Returned tt, tr1, self1) ->
  _await_reply tr1 self1 = (Returned reply, tr2, self2) ->
  reply !! "success" = Some s ->
  (truthy s = false ->
     get_completions line tr self = (Returned None, tr2, self2))
  /\ (truthy s = true ->
      get_completions line tr self
      = match reply !! "startChars", reply !! "candidates" with
        | None, _ => (Raised (KeyError "startChars"), tr2, self2)
        | Some _, None => (Raised (KeyError "candidates"), tr2, self2)
        | Some n, Some cs => (Returned (Some (n, cs)), tr2, self2)
        end).
Proof.
  intros Hs Hr Hsucc. unfold get_completions, mbind, call_bind, bind.
  rewrite Hs, Hr, Hsucc. split; intros ->; [done|].
  unfold getitem.
  destruct (reply !! "startChars"); [|done].
  by destruct (reply !! "candidates").
Qed.

Lemma get_completions_fields_witness :
  get_completions "foo."
    [Writable; Reply (request "Anything" [("success"%string, JNum 1);
                                         ("startChars"%string, JNum 3)])]
    Engine_init
  = (Raised (KeyError "candidates"), [],
     comm_send (request "RequestCompletion"
                  [("lineBeforeCursor"%string, JStr "foo.")]) Engine_init).
Proof.
  set (sent := comm_send (request "RequestCompletion"
                            [("lineBeforeCursor"%string, JStr "foo.")])
                 Engine_init).
  set (reply := request "Anything" [("success"%string, JNum 1);
                                    ("startChars"%string, JNum 3)]).
  apply (proj2 (get_completions_fields "foo."
           [Writable; Reply reply] [Reply reply] []
           Engine_init sent sent reply (JNum 1) eq_refl eq_refl eq_refl)
           eq_refl).
Defined.

(** X15.  [find_doc], [get_type] and [find_source] read their reply
    with [_response_from_reply]: each returns or raises what it gives,
    leaving the engine as the reply left it.  So each of them raises
    [ValueError] unless the reply is tagged [ExecCaptureResponse] or
    [ExecStreamResponse]. *)
Theorem lookups_interpret_reply
    (tr tr1 tr2 : list event) (self self1 self2 : Engine)
    (reply : gmap string json) :
  _await_reply tr1 self1 = (Returned reply, tr2, self2) ->
  (forall identifier,
      _await_send (request "RequestOpenDoc"
                     [("identifier"%string, JStr identifier)]) tr self
      = (Returned tt, tr1, self1) ->
      find_doc identifier tr self
      = (of_result (_response_from_reply reply), tr2, self2))
  /\ (forall identifier show_hole_fits,
      _await_send (request "RequestType"
                     [("identifier"%string, JStr identifier);
                      ("showHoleFits"%string, JBool show_hole_fits)]) tr self
      = (Returned tt, tr1, self1) ->
      get_type identifier show_hole_fits tr self
      = (of_result (_response_from_reply reply), tr2, self2))
  /\ (forall identifier,
      _await_send (request "RequestOpenSource"
                     [("identifier"%string, JStr identifier)]) tr self
      = (Returned tt, tr1, self1) ->
      find_source identifier tr self
      = (of_result (_response_from_reply reply), tr2, self2))
  /\ (forall t,
      reply !! "tag" = Some t ->
      t <> JStr "ExecCaptureResponse" -> t <> JStr "ExecStreamResponse" ->
      of_result (_response_from_reply reply)
      = Raised (ValueError (UnexpectedResponseType t))).
Proof.
  intros Hr. split; [|split; [|split]].
  - intros identifier Hs.
    unfold find_doc, mbind, call_bind, bind. by rewrite Hs, Hr, lift_eq.
  - intros identifier show_hole_fits Hs.
    unfold get_type, mbind, call_bind, bind. by rewrite Hs, Hr, lift_eq.
  - intros identifier Hs.
    unfold find_source, mbind, call_bind, bind. by rewrite Hs, Hr, lift_eq.
  - intros t Ht H1 H2. unfold _response_from_reply, getitem.
    by rewrite Ht, !eq_str_false.
Qed.

Lemma lookups_interpret_reply_witness :
  find_doc "map"
    [Writable; Reply (request "OpenDocResponse" [("success"%string, JBool true)])]
    Engine_init
  = (of_result
       (_response_from_reply
          (request "OpenDocResponse" [("success"%string, JBool true)])), [],
     comm_send (request "RequestOpenDoc" [("identifier"%string, JStr "map")])
       Engine_init)
  /\ of_result
       (_response_from_reply
          (request "OpenDocResponse" [("success"%string, JBool true)]))
     = Raised (ValueError (UnexpectedResponseType (JStr "OpenDocResponse"))).
Proof.
  set (sent := comm_send (request "RequestOpenDoc"
                            [("identifier"%string, JStr "map")]) Engine_init).
  set (reply := request "OpenDocResponse" [("success"%string, JBool true)]).
  pose proof (lookups_interpret_reply
                [Writable; Reply reply] [Reply reply] []
                Engine_init sent sent reply eq_refl) as (Hdoc & _ & _ & Hbad).
  split.
  - exact (Hdoc "map"%string eq_refl).
  - apply (Hbad (JStr "OpenDocResponse") eq_refl); discriminate.
Defined.

(** What a return of [await_sync] tells: the events it consumed were
    all handled by the listener, the cursor has reached the target, and
    it had not reached it before the last of these events. *)
Lemma await_sync_returned k tr : forall self tr' self',
  await_sync (JNum k) tr self = (Returned tt, tr', self') ->
  exists used,
    tr = used ++ tr' /\ self' = absorb used self /\ k <= cursor self'
    /\ (used = [] \/ exists u e, used = u ++ [e] /\ stays_below k u self = true).
Proof.
  induction tr as [|e tr IH]; intros self tr' self'; simpl;
    fold (cursor self); destruct (Z.leb_spec k (cursor self)) as [Hle|Hlt];
    try (intros [= <- <-]; exists []; by eauto); try done.
  assert (await_sync (JNum k) tr (background e self) = (Returned (), tr', self') ->
          exists used, e :: tr = used ++ tr'
            /\ self' = absorb used self /\ k <= cursor self'
            /\ (used = [] \/ exists u e0, used = u ++ [e0]
                               /\ stays_below k u self = true)) as Hstep.
  { intros Hrun. apply IH in Hrun as (used & -> & -> & Hk & Hlast).
    exists (e :: used). repeat split; try done. right.
    destruct Hlast as [->|(u & e0 & -> & Hu)].
    - exists [], e. split; [done|]. simpl. rewrite andb_true_r.
      by apply Z.ltb_lt.
    - exists (e :: u), e0. split; [done|]. simpl. rewrite Hu, andb_true_r.
      by apply Z.ltb_lt. }
  destruct e; try done; exact Hstep.
Qed.

(** X16.  When [exec_stream] returns after a successful reply with the
    integer target [k] and no cancellation was delivered, the listener
    has handled, in order, every stream message that arrived before the
    return and none that came later; the cursor has reached [k], and it
    was below [k] until the last of the events consumed, so the call
    returns at the first moment the target is reached. *)
Theorem exec_stream_returns_after_delivery
    (code : string) (tr tr1 tr2 tr3 : list event)
    (self self1 self2 self3 : Engine)
    (message : gmap string json) (s : json) (k : Z) (res : Response) :
  _await_send (request "RequestExecStream" [("content"%string, JStr code)]) tr self
  = (Returned tt, tr1, self1) ->
  _await_reply tr1 self1 = (Returned message, tr2, self2) ->
  message !! "success" = Some s -> truthy s = true ->
  message !! "syncVal" = Some (JNum k) ->
  forallb not_cancel tr2 = true ->
  exec_stream code tr self = (Returned res, tr3, self3) ->
  exists used,
    tr2 = used ++ tr3
    /\ self3 = absorb used self2
    /\ k <= cursor self3
    /\ (used = [] \/ exists u e, used = u ++ [e] /\ stays_below k u self2 = true).
Proof.
  intros Hs Hr Hsucc Ht Hsync Hq.
  rewrite (exec_stream_after_reply _ _ _ _ _ _ _ _ Hs Hr), Hsucc, Ht, Hsync.
  destruct (await_sync (JNum k) tr2 self2) as [[[[]|e|] tr3'] self3'] eqn:Hw.
  - intros Hres.
    assert (tr3' = tr3 /\ self3' = self3) as [-> ->] by (by simplify_eq).
    by apply await_sync_returned.
  - apply await_sync_inv in Hw as (-> & _ & waited & -> & _).
    rewrite forallb_app in Hq. simpl in Hq.
    by rewrite andb_false_r in Hq.
  - done.
Qed.

Lemma exec_stream_returns_after_delivery_witness :
  exists used,
    [StreamMessage "1:tick"; StreamMessage (marker "5"); Timeout]
    = used ++ [Timeout]
    /\ absorb [StreamMessage "1:tick"; StreamMessage (marker "5")]
         (comm_send (request "RequestExecStream"
                       [("content"%string, JStr "main")]) Engine_init)
       = absorb used
           (comm_send (request "RequestExecStream"
                         [("content"%string, JStr "main")]) Engine_init)
    /\ 5 <= cursor
              (absorb [StreamMessage "1:tick"; StreamMessage (marker "5")]
                 (comm_send (request "RequestExecStream"
                               [("content"%string, JStr "main")]) Engine_init))
    /\ (used = []
        \/ exists u e,
             used = u ++ [e]
             /\ stays_below 5 u
                  (comm_send (request "RequestExecStream"
                                [("content"%string, JStr "main")]) Engine_init)
                = true).
Proof.
  set (sent := comm_send (request "RequestExecStream"
                            [("content"%string, JStr "main")]) Engine_init).
  apply (exec_stream_returns_after_delivery "main"
           [Writable; Reply (stream_reply 5); StreamMessage "1:tick";
            StreamMessage (marker "5"); Timeout]
           [Reply (stream_reply 5); StreamMessage "1:tick";
            StreamMessage (marker "5"); Timeout]
           [StreamMessage "1:tick"; StreamMessage (marker "5"); Timeout]
           [Timeout]
           Engine_init sent sent
           (absorb [StreamMessage "1:tick"; StreamMessage (marker "5")] sent)
           (stream_reply 5) (JBool true) 5 Stream
           eq_refl eq_refl eq_refl eq_refl eq_refl eq_refl eq_refl).
Defined.
